(** * The real-time voice pipeline of pitext_travel

    A shallow embedding of
      - [static/js/audio/input-pcm-processor.js]  (the Frame Encoder, an
        AudioWorkletProcessor), and
      - [static/js/voice.js]  (the [VoiceController]: capture session
        controller and playback of [assistant_audio] chunks),
    followed by the properties of the pipeline.

    Modelling conventions.
      - A JavaScript Number is an IEEE-754 binary64 value and an element of a
        [Float32Array] a binary32 value; both are [spec_float]s of the
        standard library's executable IEEE specification, so products,
        quotients, comparisons and the rounding of a store into a
        [Float32Array] are the IEEE ones (round to nearest, ties to even).
      - An [ArrayBuffer] is a list of bytes (integers in [0,256)); the typed
        array views are little-endian, as on every platform that runs a
        browser.
      - The controller object and the part of the browser it talks to (the
        socket, the console, the media devices, the audio destination) form
        one record [State].  What the browser answers to a call is an input:
        the record [Env] for [start()], the device clock [now] for playback.
      - [start()] is an async function; a call is modelled run to completion
        (the caller awaits it), and [AudioContext.resume()] on a context the
        code never closes resolves. *)

From Stdlib Require Import ZArith QArith Qround Qabs Lqa List Bool Ascii String Lia.
From Stdlib Require Import Floats.SpecFloat.
Import ListNotations.

Local Open Scope Z_scope.

(* ------------------------------------------------------------------ *)
(** * Numbers and typed arrays *)
(* ------------------------------------------------------------------ *)

Module IEEE.

Definition prec32 : Z := 24.
Definition emax32 : Z := 128.
Definition prec64 : Z := 53.
Definition emax64 : Z := 1024.

(** An element of a [Float32Array]. *)
Definition valid32 (x : spec_float) : Prop := valid_binary prec32 emax32 x = true.

(** The Number denoted by an integer literal (exact below 2^53). *)
Definition Number_of_Z (z : Z) : spec_float :=
  binary_normalize prec64 emax64 z 0 false.

(** Reading a [Float32Array] element yields the same value as a Number:
    the mantissa is realigned to 53 bits, nothing is rounded off. *)
Definition f32_to_f64 (x : spec_float) : spec_float :=
  match x with
  | S754_finite s m e => binary_normalize prec64 emax64 (cond_Zopp s (Zpos m)) e s
  | _ => x
  end.

(** Storing a Number into a [Float32Array] rounds it to binary32. *)
Definition f64_to_f32 (x : spec_float) : spec_float :=
  match x with
  | S754_finite s m e => binary_normalize prec32 emax32 (cond_Zopp s (Zpos m)) e s
  | _ => x
  end.

Definition Number_mul : spec_float -> spec_float -> spec_float := SFmul prec64 emax64.
Definition Number_div : spec_float -> spec_float -> spec_float := SFdiv prec64 emax64.
(** [a > b] and [a < b] on Numbers; both are false when a NaN is involved. *)
Definition Number_gt (a b : spec_float) : bool := SFltb b a.
Definition Number_lt (a b : spec_float) : bool := SFltb a b.

(** ECMAScript [truncate]: the integral part of a finite Number. *)
Definition truncate (x : spec_float) : Z :=
  match x with
  | S754_finite s m e =>
      cond_Zopp s (match e with
                   | Zneg p => Z.shiftr (Zpos m) (Zpos p)
                   | _ => Z.shiftl (Zpos m) e
                   end)
  | _ => 0
  end.

(** ECMAScript [ToInt16], the conversion of a store into an [Int16Array]:
    NaN, the zeros and the infinities give 0, any other Number is truncated
    and taken modulo 2^16 into the signed range. *)
Definition ToInt16 (x : spec_float) : Z :=
  let int16bit := (truncate x) mod 65536 in
  if 32768 <=? int16bit then int16bit - 65536 else int16bit.

(** The exact rational value of a finite float (0 for the others). *)
Definition Qpow2 (e : Z) : Q :=
  match e with
  | Zneg p => 1 # (2 ^ p)%positive
  | _ => inject_Z (2 ^ e)
  end.

Definition SF2Q (x : spec_float) : Q :=
  match x with
  | S754_finite s m e => (inject_Z (cond_Zopp s (Zpos m)) * Qpow2 e)%Q
  | _ => 0%Q
  end.

(** A mantissa of at most 53 bits, shifted left until it has exactly 53:
    the mantissa of the same value as a normal binary64 number. *)
Definition norm53 (p : positive) : positive :=
  Z.to_pos (Zpos p * 2 ^ (52 - Z.log2 (Zpos p))).

(** Some binary32 constants used in examples. *)
Definition f32_half : spec_float := S754_finite false 8388608 (-24).      (* 0.5 *)
Definition f32_one : spec_float := S754_finite false 8388608 (-23).       (* 1.0 *)
Definition f32_1_5 : spec_float := S754_finite false 12582912 (-23).      (* 1.5 *)

End IEEE.

Module TypedArray.

(** An [ArrayBuffer]: bytes, each in [0,256). *)
Definition ArrayBuffer := list Z.

(** The two bytes of an int16 element, least significant first. *)
Definition int16_bytes (v : Z) : list Z := [v mod 256; (v / 256) mod 256].

(** [pcm.buffer] of an [Int16Array] holding [l]. *)
Definition Int16Array_buffer (l : list Z) : ArrayBuffer := flat_map int16_bytes l.

Definition int16_of_bytes (lo hi : Z) : Z :=
  let u := lo + 256 * hi in
  if 32768 <=? u then u - 65536 else u.

(** [new Int16Array(buffer)]: a view over the whole buffer; a byte length
    that is not a multiple of 2 raises a RangeError ([None]). *)
Fixpoint Int16Array_of_buffer (b : ArrayBuffer) : option (list Z) :=
  match b with
  | [] => Some []
  | [_] => None
  | lo :: hi :: rest =>
      match Int16Array_of_buffer rest with
      | Some l => Some (int16_of_bytes lo hi :: l)
      | None => None
      end
  end.

End TypedArray.

(* ------------------------------------------------------------------ *)
(** * The browser's [atob] *)
(* ------------------------------------------------------------------ *)

Module Base64.

Definition charCode (c : ascii) : Z := Z.of_N (N_of_ascii c).

Definition is_ascii_whitespace (c : ascii) : bool :=
  let n := charCode c in
  (n =? 9) || (n =? 10) || (n =? 12) || (n =? 13) || (n =? 32).

(** The value of a character of the base64 alphabet. *)
Definition sextet (c : ascii) : option Z :=
  let n := charCode c in
  if (65 <=? n) && (n <=? 90) then Some (n - 65)
  else if (97 <=? n) && (n <=? 122) then Some (n - 71)
  else if (48 <=? n) && (n <=? 57) then Some (n + 4)
  else if n =? 43 then Some 62
  else if n =? 47 then Some 63
  else None.

Definition is_pad (c : ascii) : bool := charCode c =? 61.

(** A text whose length is a multiple of 4 may end in one or two ['='],
    which are dropped. *)
Definition strip_padding (l : list ascii) : list ascii :=
  let n := List.length l in
  if Z.of_nat n mod 4 =? 0 then
    match skipn (n - 2) l with
    | [a; b] =>
        if is_pad b then (if is_pad a then firstn (n - 2) l else firstn (n - 1) l)
        else l
    | _ => l
    end
  else l.

Fixpoint sextets (l : list ascii) : option (list Z) :=
  match l with
  | [] => Some []
  | c :: r =>
      match sextet c, sextets r with
      | Some v, Some vs => Some (v :: vs)
      | _, _ => None
      end
  end.

(** 24 bits give three bytes; 18 trailing bits give two, 12 give one. *)
Fixpoint bytes_of_sextets (l : list Z) : list Z :=
  match l with
  | a :: b :: c :: d :: rest =>
      let n := ((a * 64 + b) * 64 + c) * 64 + d in
      (n / 65536) :: ((n / 256) mod 256) :: (n mod 256) :: bytes_of_sextets rest
  | [a; b; c] =>
      let n := ((a * 64 + b) * 64 + c) / 4 in
      [n / 256; n mod 256]
  | [a; b] => [(a * 64 + b) / 16]
  | _ => []
  end.

(** [atob]: the forgiving base64 decoding of the HTML standard.  [None] is
    the [InvalidCharacterError] it throws.  The result is a binary string,
    one character per byte. *)
Definition atob (data : string) : option string :=
  let l := filter (fun c => negb (is_ascii_whitespace c)) (list_ascii_of_string data) in
  let l := strip_padding l in
  if Z.of_nat (List.length l) mod 4 =? 1 then None
  else
    match sextets l with
    | None => None
    | Some vs =>
        Some (string_of_list_ascii
                (map (fun b => ascii_of_N (Z.to_N b)) (bytes_of_sextets vs)))
    end.

End Base64.

(* ------------------------------------------------------------------ *)
(** * input-pcm-processor.js: the Frame Encoder *)
(* ------------------------------------------------------------------ *)

Module InputPCMProcessor.
Import IEEE TypedArray.

(** The body of the conversion loop, statement by statement.
    [let s = float32[i] * 0x7fff] *)
Definition scale (x : spec_float) : spec_float :=
  Number_mul (f32_to_f64 x) (Number_of_Z 32767).

(** [if (s > 0x7fff) s = 0x7fff else if (s < -0x8000) s = -0x8000] *)
Definition clamp (s : spec_float) : spec_float :=
  if Number_gt s (Number_of_Z 32767) then Number_of_Z 32767
  else if Number_lt s (Number_of_Z (-32768)) then Number_of_Z (-32768)
  else s.

(** [pcm[i] = s] *)
Definition encode_sample (x : spec_float) : Z := ToInt16 (clamp (scale x)).

(** [process(inputs)]: the value returned (always [true], the processor
    stays alive) and the buffer posted on the port, if any.  [inputs] is
    the list of inputs, each a list of channels. *)
Definition process (inputs : list (list (list spec_float))) : bool * option ArrayBuffer :=
  match inputs with
  | (float32 :: _) :: _ =>
      let pcm := map encode_sample float32 in
      (true, Some (Int16Array_buffer pcm))
  | _ => (true, None)
  end.

(** Whether a quantum carries data: input 0 exists and has a channel 0. *)
Definition has_data (inputs : list (list (list spec_float))) : bool :=
  match inputs with
  | (_ :: _) :: _ => true
  | _ => false
  end.

(** The buffer [process] posts for a quantum (empty when it posts none). *)
Definition posted (inputs : list (list (list spec_float))) : ArrayBuffer :=
  match snd (process inputs) with
  | Some data => data
  | None => []
  end.

End InputPCMProcessor.

(** The encoder as the specification words it, on exact rationals: scale by
    32767, clamp to the int16 range, discard the fractional part. *)
Module EncoderSpec.

Definition Qclamp16 (s : Q) : Q :=
  if Qle_bool s 32767 then (if Qle_bool (-32768) s then s else -32768)%Q
  else 32767%Q.

(** Truncation toward zero. *)
Definition Qtruncate (s : Q) : Z :=
  if Qle_bool 0 s then Qfloor s else Qceiling s.

Definition spec_encode (x : Q) : Z := Qtruncate (Qclamp16 (x * 32767)).

(** [out] is the sample [x] scaled by 32767 and hard-clamped to the int16
    range: it lies in the range, it sits on the bound when the scaled value
    reaches or passes it (so nothing wraps around), and it is less than one
    away from the scaled value otherwise.  An infinite sample sits on its
    bound; NaN, which compares false with both bounds, is stored as 0. *)
Definition scaled_and_clamped (x : spec_float) (out : Z) : Prop :=
  -32768 <= out <= 32767 /\
  match x with
  | S754_nan => out = 0
  | S754_infinity s => out = if s then -32768 else 32767
  | _ =>
      let v := (IEEE.SF2Q x * 32767)%Q in
      ((32767 <= v)%Q -> out = 32767) /\
      ((v <= -32768)%Q -> out = -32768) /\
      ((-32768 <= v)%Q -> (v <= 32767)%Q ->
       (v - 1 < inject_Z out)%Q /\ (inject_Z out < v + 1)%Q)
  end.

End EncoderSpec.

(* ------------------------------------------------------------------ *)
(** * voice.js: the VoiceController *)
(* ------------------------------------------------------------------ *)

Module Voice.
Import IEEE TypedArray.

Inductive Exception : Type :=
| InvalidCharacterError   (* atob *)
| RangeError              (* new Int16Array on an odd byte length *)
| NotSupportedError       (* createBuffer with no frames *)
| NotAllowedError         (* getUserMedia: permission denied *)
| NotFoundError.          (* getUserMedia: no input device *)

(** The spec's DeviceUnavailable: what [getUserMedia] rejects with. *)
Definition DeviceUnavailable (e : Exception) : bool :=
  match e with
  | NotAllowedError | NotFoundError => true
  | _ => false
  end.

(** How a call ends: normally (a resolved promise for an async function)
    or with an exception (a rejected promise). *)
Inductive Outcome : Type :=
| Returned
| Threw (e : Exception).

Inductive SocketMessage : Type :=
| audio_chunk (pcm : ArrayBuffer)
| audio_commit.

Inductive LogEntry : Type :=
| console_warn (msg : string)
| console_error (msg : string).

(** A decoded chunk, the value [b64ToPCM] returns. *)
Record PlaybackChunk : Type := {
  float32 : list spec_float;
  sampleRate : Z
}.

(** A buffer source node that was started on the destination. *)
Record BufferSource : Type := {
  src_start : Q;                  (* device time at which it starts *)
  src_buffer : list spec_float;   (* its one channel *)
  src_rate : Z
}.

(** Playing time of a source, in seconds. *)
Definition duration (s : BufferSource) : Q :=
  (inject_Z (Z.of_nat (List.length (src_buffer s))) / inject_Z (src_rate s))%Q.

Record State : Type := {
  (* the controller's fields *)
  button_active : bool;         (* the mic button carries class 'active' *)
  audioCtx : option Z;          (* the AudioContext, by its sample rate *)
  worklet : bool;               (* the worklet node exists, is fed by the
                                   microphone and has its port handler *)
  stream : bool;                (* the microphone stream is held *)
  isRecording : bool;
  (* the browser around it *)
  emitted : list SocketMessage; (* socket.emit calls, oldest first *)
  console : list LogEntry;
  getUserMedia_calls : nat;     (* device acquisition attempts *)
  started : list BufferSource   (* sources started, oldest first *)
}.

Definition set_button_active (b : bool) (st : State) : State :=
  {| button_active := b; audioCtx := audioCtx st; worklet := worklet st;
     stream := stream st; isRecording := isRecording st; emitted := emitted st;
     console := console st; getUserMedia_calls := getUserMedia_calls st;
     started := started st |}.

Definition set_audioCtx (c : option Z) (st : State) : State :=
  {| button_active := button_active st; audioCtx := c; worklet := worklet st;
     stream := stream st; isRecording := isRecording st; emitted := emitted st;
     console := console st; getUserMedia_calls := getUserMedia_calls st;
     started := started st |}.

Definition set_worklet (b : bool) (st : State) : State :=
  {| button_active := button_active st; audioCtx := audioCtx st; worklet := b;
     stream := stream st; isRecording := isRecording st; emitted := emitted st;
     console := console st; getUserMedia_calls := getUserMedia_calls st;
     started := started st |}.

Definition set_stream (b : bool) (st : State) : State :=
  {| button_active := button_active st; audioCtx := audioCtx st; worklet := worklet st;
     stream := b; isRecording := isRecording st; emitted := emitted st;
     console := console st; getUserMedia_calls := getUserMedia_calls st;
     started := started st |}.

Definition set_isRecording (b : bool) (st : State) : State :=
  {| button_active := button_active st; audioCtx := audioCtx st; worklet := worklet st;
     stream := stream st; isRecording := b; emitted := emitted st;
     console := console st; getUserMedia_calls := getUserMedia_calls st;
     started := started st |}.

Definition socket_emit (m : SocketMessage) (st : State) : State :=
  {| button_active := button_active st; audioCtx := audioCtx st; worklet := worklet st;
     stream := stream st; isRecording := isRecording st; emitted := emitted st ++ [m];
     console := console st; getUserMedia_calls := getUserMedia_calls st;
     started := started st |}.

Definition console_log (l : LogEntry) (st : State) : State :=
  {| button_active := button_active st; audioCtx := audioCtx st; worklet := worklet st;
     stream := stream st; isRecording := isRecording st; emitted := emitted st;
     console := console st ++ [l]; getUserMedia_calls := getUserMedia_calls st;
     started := started st |}.

Definition count_getUserMedia (st : State) : State :=
  {| button_active := button_active st; audioCtx := audioCtx st; worklet := worklet st;
     stream := stream st; isRecording := isRecording st; emitted := emitted st;
     console := console st; getUserMedia_calls := S (getUserMedia_calls st);
     started := started st |}.

Definition source_start (s : BufferSource) (st : State) : State :=
  {| button_active := button_active st; audioCtx := audioCtx st; worklet := worklet st;
     stream := stream st; isRecording := isRecording st; emitted := emitted st;
     console := console st; getUserMedia_calls := getUserMedia_calls st;
     started := started st ++ [s] |}.

(** The controller once its constructor has run on a page that has the mic
    button. *)
Definition new_VoiceController : State :=
  {| button_active := false; audioCtx := None; worklet := false; stream := false;
     isRecording := false; emitted := []; console := []; getUserMedia_calls := 0;
     started := [] |}.

(** What the browser answers during one [start()]. *)
Inductive MediaAnswer : Type :=
| Granted
| Refused (e : Exception).

Record Env : Type := {
  addModule_ok : bool;          (* audioWorklet.addModule resolves *)
  getUserMedia : MediaAnswer    (* what getUserMedia settles with *)
}.

Definition _ensureAudioPipeline (env : Env) (st : State) : State * Outcome :=
  match audioCtx st with
  | Some _ => (st, Returned)
  | None =>
      let st := set_audioCtx (Some 24000) st in
      if negb (addModule_ok env) then
        (console_log (console_error "Failed to load AudioWorklet:") st, Returned)
      else
        let st := count_getUserMedia st in
        match getUserMedia env with
        | Refused e => (st, Threw e)
        | Granted =>
            let st := set_stream true st in
            let st := set_worklet true st in
            (st, Returned)
        end
  end.

Definition start (env : Env) (st : State) : State * Outcome :=
  if isRecording st then (st, Returned)
  else
    match _ensureAudioPipeline env st with
    | (st, Threw e) => (st, Threw e)
    | (st, Returned) =>
        (* await this.audioCtx.resume() *)
        let st := set_button_active true st in
        let st := set_isRecording true st in
        (st, Returned)
    end.

Definition stop (st : State) : State :=
  if negb (isRecording st) then st
  else
    let st := set_button_active false st in
    let st := set_isRecording false st in
    socket_emit audio_commit st.

(** [toggle()] drops the promise of [start()]. *)
Definition toggle (env : Env) (st : State) : State :=
  if isRecording st then stop st else fst (start env st).

(** The port handler installed by [_ensureAudioPipeline]. *)
Definition port_onmessage (data : ArrayBuffer) (st : State) : State :=
  socket_emit (audio_chunk data) st.

Definition _playAssistant (now : Q) (c : PlaybackChunk) (st : State) : State * Outcome :=
  let st := match audioCtx st with
            | None => set_audioCtx (Some (sampleRate c)) st
            | Some _ => st
            end in
  (* createBuffer(1, float32.length, sampleRate) refuses a length of 0 *)
  match float32 c with
  | [] => (st, Threw NotSupportedError)
  | _ :: _ =>
      (* src.start() with no argument: the source starts at currentTime *)
      (source_start {| src_start := now; src_buffer := float32 c;
                       src_rate := sampleRate c |} st, Returned)
  end.

Definition Uint8Array_from (s : string) (f : ascii -> Z) : ArrayBuffer :=
  map f (list_ascii_of_string s).

(** [s => s / 0x7fff] followed by the store into the [Float32Array]. *)
Definition decode_sample (s : Z) : spec_float :=
  f64_to_f32 (Number_div (Number_of_Z s) (Number_of_Z 32767)).

Definition b64ToPCM (b64 : string) : PlaybackChunk + Exception :=
  match Base64.atob b64 with
  | None => inr InvalidCharacterError
  | Some str =>
      let bytes := Uint8Array_from str Base64.charCode in
      match Int16Array_of_buffer bytes with
      | None => inr RangeError
      | Some int16 =>
          inl {| float32 := map decode_sample int16; sampleRate := 24000 |}
      end
  end.

(** The handler of [assistant_audio]. *)
Definition on_assistant_audio (now : Q) (audio : string) (st : State) : State * Outcome :=
  match b64ToPCM audio with
  | inr e => (st, Threw e)
  | inl c => _playAssistant now c st
  end.

(** What can happen to the controller. *)
Inductive Event : Type :=
| EStart (env : Env)
| EStop
| EToggle (env : Env)
| EQuantum (inputs : list (list (list spec_float)))
    (* the audio thread renders one quantum on the controller's graph *)
| EAssistantAudio (now : Q) (audio : string)
| EAssistantText (text : string).

Definition step (ev : Event) (st : State) : State * Outcome :=
  match ev with
  | EStart env => start env st
  | EStop => (stop st, Returned)
  | EToggle env => (toggle env st, Returned)
  | EQuantum inputs =>
      if worklet st then
        match snd (InputPCMProcessor.process inputs) with
        | Some data => (port_onmessage data st, Returned)
        | None => (st, Returned)
        end
      else (st, Returned)
  | EAssistantAudio now audio => on_assistant_audio now audio st
  | EAssistantText _ => (st, Returned)   (* handed to the chat widget *)
  end.

Fixpoint run (evs : list Event) (st : State) : State :=
  match evs with
  | [] => st
  | ev :: evs' => run evs' (fst (step ev st))
  end.

(** The states passed through, the first one included. *)
Fixpoint trace (evs : list Event) (st : State) : list State :=
  st :: match evs with
        | [] => []
        | ev :: evs' => trace evs' (fst (step ev st))
        end.

Definition Recording_to_Idle (a b : State) : bool := isRecording a && negb (isRecording b).
Definition Idle_to_Recording (a b : State) : bool := negb (isRecording a) && isRecording b.

(** Number of adjacent pairs of a trace that satisfy [p]. *)
Fixpoint transitions (p : State -> State -> bool) (l : list State) : nat :=
  match l with
  | a :: (b :: _) as t => (if p a b then 1 else 0) + transitions p t
  | _ => 0
  end.

Definition is_commit (m : SocketMessage) : bool :=
  match m with audio_commit => true | _ => false end.
Definition is_chunk (m : SocketMessage) : bool :=
  match m with audio_chunk _ => true | _ => false end.

Definition commits (st : State) : nat := List.length (filter is_commit (emitted st)).
Definition chunks (st : State) : nat := List.length (filter is_chunk (emitted st)).

(** What one event appends to the socket. *)
Definition sends (ev : Event) (st : State) : list SocketMessage :=
  match ev with
  | EStop | EToggle _ => if isRecording st then [audio_commit] else []
  | EQuantum inputs =>
      if worklet st then
        match snd (InputPCMProcessor.process inputs) with
        | Some data => [audio_chunk data]
        | None => []
        end
      else []
  | _ => []
  end.

(** The source an event starts on the destination, if any. *)
Definition plays (ev : Event) : list BufferSource :=
  match ev with
  | EAssistantAudio now audio =>
      match b64ToPCM audio with
      | inl c =>
          match float32 c with
          | [] => []
          | _ :: _ => [{| src_start := now; src_buffer := float32 c;
                          src_rate := sampleRate c |}]
          end
      | inr _ => []
      end
  | _ => []
  end.

(** Decoding a sample as [b64ToPCM] does, then encoding it as the worklet
    does. *)
Definition roundtrip (v : Z) : Z := InputPCMProcessor.encode_sample (decode_sample v).

End Voice.

(* ------------------------------------------------------------------ *)
(** * Inputs used in examples *)
(* ------------------------------------------------------------------ *)

Module Examples.
Import IEEE Voice.

(** The browser loads the module and grants the microphone. *)
Definition env_ok : Env := {| addModule_ok := true; getUserMedia := Granted |}.
(** The user denies the microphone. *)
Definition env_denied : Env :=
  {| addModule_ok := true; getUserMedia := Refused NotAllowedError |}.
(** The worklet module does not load. *)
Definition env_module_fails : Env := {| addModule_ok := false; getUserMedia := Granted |}.

(** One quantum of 128 frames of silence on one channel. *)
Definition silent_quantum : list (list (list spec_float)) :=
  [[repeat (S754_zero false) 128]].

(** The base64 text of [3 * groups] zero bytes. *)
Fixpoint silence_b64 (groups : nat) : string :=
  match groups with
  | O => EmptyString
  | S k => String "A" (String "A" (String "A" (String "A" (silence_b64 k))))
  end.

(** 200 ms and 300 ms of silence at 24 kHz: 4800 and 7200 samples. *)
Definition chunk_200ms : string := silence_b64 3200.
Definition chunk_300ms : string := silence_b64 4800.

End Examples.

(* ------------------------------------------------------------------ *)
(** * Checking a predicate on a whole range of integers *)
(* ------------------------------------------------------------------ *)

(** [all_bits k P base] tests [P] on the [2^k] integers from [base] on. *)
Fixpoint all_bits (k : nat) (P : Z -> bool) (base : Z) : bool :=
  match k with
  | O => P base
  | S k' => all_bits k' P base && all_bits k' P (base + 2 ^ Z.of_nat k')
  end.

(** The stored sample in terms of the magnitude of the sample's value scaled
    by [2^187], an integer for every binary32 value. *)
Definition stored (s : bool) (W : Z) : Z :=
  if s then (if 32768 * 2 ^ 187 <? W then -32768 else - (W / 2 ^ 187))
  else (if 32767 * 2 ^ 187 <? W then 32767 else W / 2 ^ 187).

(** ** Cheaper equivalents, for evaluating the round trip on every int16

    [decode_fast] is [Voice.decode_sample] with the 38 low zero bits that the
    mantissas of dividend and divisor share cancelled before the division;
    [encode_fast] is [InputPCMProcessor.encode_sample] with the exact product
    truncated by a shift.  Both are proved equal to the originals below. *)

(** Quotient and rounding position of [p * 2^k / 32767], where [k] leaves
    the quotient 53 or 54 bits. *)
Definition div_32767 (p : positive) : Z * location :=
  let (q, r) := Z.div_eucl (Zpos p * 2 ^ (67 - Z.log2 (Zpos p))) 32767 in
  (q, if r =? 0 then loc_Exact else loc_Inexact (2 * r ?= 32767)).

Definition quotient_32767 (s : bool) (p : positive) : spec_float :=
  let (q, l) := div_32767 p in
  binary_round_aux IEEE.prec64 IEEE.emax64 s q (Z.log2 (Zpos p) - 67) l.

Definition decode_fast (v : Z) : spec_float :=
  match v with
  | Z0 => S754_zero false
  | Zpos p => IEEE.f64_to_f32 (quotient_32767 false p)
  | Zneg p => IEEE.f64_to_f32 (quotient_32767 true p)
  end.

(** [stored] for a negative exponent, with the scaling by [2^187] removed. *)
Definition stored_shift (s : bool) (m : positive) (e : Z) : Z :=
  let P := Zpos m * 32767 in
  if s then (if 32768 * 2 ^ (- e) <? P then -32768 else - Z.shiftr P (- e))
  else (if 32767 * 2 ^ (- e) <? P then 32767 else Z.shiftr P (- e)).

Definition encode_fast (x : spec_float) : Z :=
  match x with
  | S754_finite s m e =>
      if valid_binary IEEE.prec32 IEEE.emax32 x && (e <? 0) then stored_shift s m e
      else InputPCMProcessor.encode_sample x
  | _ => InputPCMProcessor.encode_sample x
  end.

(** The round trip of one int16 value stays within one step, on the side of
    zero; at -32768 the decoded sample is below -1. *)
Definition roundtrip_near (v : Z) : bool :=
  if v =? -32768 then SFltb (decode_fast v) (SFopp IEEE.f32_one)
  else
    let r := encode_fast (decode_fast v) in
    if 0 <=? v then (v - 1 <=? r) && (r <=? v) else (v <=? r) && (r <=? v + 1).

(* ------------------------------------------------------------------ *)
(** * Samples with a value, and the check of the decoder *)
(* ------------------------------------------------------------------ *)

Module Samples.
Import IEEE.

(** A sample with a value: a finite number or a zero. *)
Definition has_value (x : spec_float) : bool :=
  match x with
  | S754_zero _ | S754_finite _ _ _ => true
  | _ => false
  end.

(** What evaluation checks of the decoding of one int16 value [v]: a binary32
    number of the sign of [v], within [2^-24] of [v / 32767] relatively, at
    most 1 and at least [-32769/32768]. *)
Definition decode_check (v : Z) : bool :=
  match decode_fast v with
  | S754_zero s => (v =? 0) && negb s
  | S754_finite s m e =>
      valid_binary prec32 emax32 (S754_finite s m e) && (e <? 0)
      && Bool.eqb s (v <? 0)
      && (Z.abs (Zpos m * 32767 - Z.abs v * 2 ^ (- e)) * 16777216 <=? Z.abs v * 2 ^ (- e))
      && (if s then Zpos m * 32768 <=? 32769 * 2 ^ (- e) else Zpos m <=? 2 ^ (- e))
  | _ => false
  end.

End Samples.

(* ------------------------------------------------------------------ *)
(** * The controller over its lifetime *)
(* ------------------------------------------------------------------ *)

Module Lifetime.
Import Voice.

(** What holds of the controller in every state a new one can reach. *)
Definition coherent (st : State) : Prop :=
  button_active st = isRecording st
  /\ stream st = worklet st
  /\ (audioCtx st = None \/ audioCtx st = Some 24000)
  /\ (audioCtx st = None ->
      getUserMedia_calls st = 0%nat /\ worklet st = false /\ console st = []
      /\ isRecording st = false)
  /\ (worklet st = true -> getUserMedia_calls st = 1%nat)
  /\ (getUserMedia_calls st <= 1)%nat
  /\ (console st = [] \/
      console st = [console_error "Failed to load AudioWorklet:"]
      /\ getUserMedia_calls st = 0%nat /\ worklet st = false).

(** A context exists but no capture graph. *)
Definition capture_off (st : State) : Prop := audioCtx st <> None /\ worklet st = false.

End Lifetime.

(* ------------------------------------------------------------------ *)
(** * voice.js on a page without the mic button *)
(* ------------------------------------------------------------------ *)

(** The constructor warns and returns at once (lines 29-32): [this.button]
    is [null], no socket is opened, no handler is installed and no field is
    initialised, yet the object is published as [window.voice] and its
    methods can be called. *)
Module NoButton.
Import TypedArray Voice.

(** How a call ends here: as in [Voice.Outcome], or with the TypeError of
    reading a property of [null] or [undefined]. *)
Inductive Completion : Type :=
| Completed
| Raised (e : Exception)
| TypeError.

Definition new_VoiceController_no_button : State :=
  console_log (console_warn "Mic button not found – voice disabled")
    new_VoiceController.

(** [this.isRecording] is [undefined]; [this.button.classList] throws once
    the pipeline and [resume()] are through. *)
Definition start_no_button (env : Env) (st : State) : State * Completion :=
  if isRecording st then (st, Completed)
  else
    match _ensureAudioPipeline env st with
    | (st, Threw e) => (st, Raised e)
    | (st, Returned) => (st, TypeError)
    end.

Definition stop_no_button (st : State) : State * Completion :=
  if negb (isRecording st) then (st, Completed)
  else (st, TypeError).

Definition toggle_no_button (env : Env) (st : State) : State * Completion :=
  if isRecording st then stop_no_button st
  else (fst (start_no_button env st), Completed).

(** The port handler reads [this.socket], which is [undefined]. *)
Definition port_onmessage_no_socket (data : ArrayBuffer) (st : State) : State * Completion :=
  (st, TypeError).

(** Messages of the server reach no handler: there is no socket. *)
Definition step_no_button (ev : Event) (st : State) : State * Completion :=
  match ev with
  | EStart env => start_no_button env st
  | EStop => stop_no_button st
  | EToggle env => toggle_no_button env st
  | EQuantum inputs =>
      if worklet st then
        match snd (InputPCMProcessor.process inputs) with
        | Some data => port_onmessage_no_socket data st
        | None => (st, Completed)
        end
      else (st, Completed)
  | EAssistantAudio _ _ | EAssistantText _ => (st, Completed)
  end.

Fixpoint run_no_button (evs : list Event) (st : State) : State :=
  match evs with
  | [] => st
  | ev :: evs' => run_no_button evs' (fst (step_no_button ev st))
  end.

End NoButton.

(* ================================================================== *)
(** * Properties *)
(* ================================================================== *)

Import IEEE TypedArray InputPCMProcessor EncoderSpec Voice Examples.

(* ------------------------------------------------------------------ *)
(** ** IEEE arithmetic: the products of the encoder are exact *)
(* ------------------------------------------------------------------ *)

Section Rounding.

Lemma digits2_pos_size (p : positive) : digits2_pos p = Pos.size p.
Proof. induction p; simpl; congruence. Qed.

Lemma digits2_pos_log2 (p : positive) : Zpos (digits2_pos p) = Z.log2 (Zpos p) + 1.
Proof.
  rewrite digits2_pos_size. destruct p; simpl; rewrite ?Pos2Z.inj_succ; lia.
Qed.

Lemma iter_pos_nat {A} (f : A -> A) (p : positive) :
  forall x, iter_pos f p x = Nat.iter (Pos.to_nat p) f x.
Proof.
  induction p as [p IH | p IH |]; intro x; cbn [iter_pos].
  - rewrite !IH, Pos2Nat.inj_xI. 
    replace (S (2 * Pos.to_nat p)) with (Pos.to_nat p + (Pos.to_nat p + 1))%nat by lia.
    rewrite !Nat.iter_add. reflexivity.
  - rewrite !IH, Pos2Nat.inj_xO.
    replace (2 * Pos.to_nat p)%nat with (Pos.to_nat p + Pos.to_nat p)%nat by lia.
    rewrite Nat.iter_add. reflexivity.
  - reflexivity.
Qed.

Lemma shr_1_even (a : Z) : 0 <= a ->
  shr_1 {| shr_m := 2 * a; shr_r := false; shr_s := false |}
  = {| shr_m := a; shr_r := false; shr_s := false |}.
Proof. destruct a; simpl; intros; try reflexivity; lia. Qed.

Lemma shr_exact_nat (n : nat) : forall a, 0 <= a ->
  Nat.iter n shr_1 {| shr_m := a * 2 ^ Z.of_nat n; shr_r := false; shr_s := false |}
  = {| shr_m := a; shr_r := false; shr_s := false |}.
Proof.
  induction n as [| n IH]; intros a Ha.
  - simpl. f_equal. lia.
  - rewrite Nat2Z.inj_succ, Z.pow_succ_r by lia.
    replace (a * (2 * 2 ^ Z.of_nat n)) with ((2 * a) * 2 ^ Z.of_nat n) by ring.
    rewrite Nat.iter_succ, IH by lia. apply shr_1_even; assumption.
Qed.

Lemma shr_exact (a : Z) (e k : Z) : 0 <= a -> 0 <= k ->
  shr {| shr_m := a * 2 ^ k; shr_r := false; shr_s := false |} e k
  = ({| shr_m := a; shr_r := false; shr_s := false |}, e + k).
Proof.
  intros Ha Hk. destruct k as [| p | p]; try lia.
  - unfold shr. rewrite Z.pow_0_r, Z.mul_1_r, Z.add_0_r. reflexivity.
  - unfold shr. rewrite iter_pos_nat.
    rewrite <- (positive_nat_Z p) at 1. rewrite shr_exact_nat by assumption. reflexivity.
Qed.

Variables prec emax : Z.

(** Rounding a mantissa whose surplus bits are all zero is exact. *)
Lemma binary_round_aux_exact (s : bool) (m : positive) (e k : Z) :
  0 <= k ->
  Z.log2 (Zpos m) + 1 = prec ->
  emin prec emax <= e + k ->
  e + k <= emax - prec ->
  binary_round_aux prec emax s (Zpos m * 2 ^ k) e loc_Exact = S754_finite s m (e + k).
Proof.
  intros Hk Hd Hmin Hmax.
  assert (Hdig : forall n, 0 < n -> Zdigits2 n = Z.log2 n + 1).
  { intros [| q | q] Hn; try lia. apply digits2_pos_log2. }
  assert (Hpos : 0 < Zpos m * 2 ^ k) by (apply Z.mul_pos_pos; [lia | apply Z.pow_pos_nonneg; lia]).
  unfold binary_round_aux, shr_fexp.
  rewrite (Hdig _ Hpos), Z.log2_mul_pow2 by lia.
  replace (fexp prec emax (k + Z.log2 (Zpos m) + 1 + e) - e) with k
    by (unfold fexp; lia).
  cbn [shr_record_of_loc].
  rewrite shr_exact by lia.
  cbn [shr_m loc_of_shr_record round_nearest_even].
  rewrite Hdig by lia.
  replace (fexp prec emax (Z.log2 (Zpos m) + 1 + (e + k)) - (e + k)) with 0
    by (unfold fexp; lia).
  cbn [shr shr_m].
  destruct (Z.leb_spec (e + k) (emax - prec)); [reflexivity | lia].
Qed.

End Rounding.

Section Widening.

Lemma norm53_eq (p : positive) : Z.log2 (Zpos p) <= 52 ->
  Zpos (norm53 p) = Zpos p * 2 ^ (52 - Z.log2 (Zpos p)).
Proof.
  intro H. unfold norm53. rewrite Z2Pos.id; [reflexivity |].
  apply Z.mul_pos_pos; [lia | apply Z.pow_pos_nonneg; lia].
Qed.

Lemma norm53_log2 (p : positive) : Z.log2 (Zpos p) <= 52 ->
  Z.log2 (Zpos (norm53 p)) = 52.
Proof.
  intro H. rewrite norm53_eq, Z.log2_mul_pow2 by lia. lia.
Qed.

Lemma iter_xO (m d : positive) : Zpos (Pos.iter xO m d) = Zpos m * 2 ^ Zpos d.
Proof.
  induction d as [| d IH] using Pos.peano_ind.
  - simpl. lia.
  - rewrite Pos.iter_succ, Pos2Z.inj_xO, IH, Pos2Z.inj_succ, Z.pow_succ_r by lia. ring.
Qed.

(** What validity means for a finite binary32 value. *)
Lemma valid32_bounds (s : bool) (m : positive) (e : Z) :
  valid32 (S754_finite s m e) ->
  Z.log2 (Zpos m) <= 23 /\ -149 <= e <= 104.
Proof.
  unfold valid32, valid_binary, bounded, canonical_mantissa, fexp, emin, prec32, emax32.
  rewrite digits2_pos_log2. intro H.
  apply andb_true_iff in H. destruct H as [H1 H2].
  apply Z.eqb_eq in H1. apply Z.leb_le in H2. lia.
Qed.

(** Realigning a mantissa of at most 53 bits to binary64 loses nothing. *)
Lemma binary_round64_exact (s : bool) (m : positive) (e : Z) :
  Z.log2 (Zpos m) <= 52 ->
  -1022 <= e <= 971 ->
  binary_round prec64 emax64 s m e
  = S754_finite s (norm53 m) (e - (52 - Z.log2 (Zpos m))).
Proof.
  intros Hm He. unfold binary_round, shl_align.
  rewrite digits2_pos_log2.
  pose proof (Z.log2_nonneg (Zpos m)) as Hm0.
  assert (Hf : fexp prec64 emax64 (Z.log2 (Zpos m) + 1 + e) = e - (52 - Z.log2 (Zpos m))).
  { unfold fexp, emin, prec64, emax64. lia. }
  rewrite Hf.
  destruct (e - (52 - Z.log2 (Z.pos m)) - e) as [| d | d] eqn:Ed.
  - assert (Hl : Z.log2 (Zpos m) = 52) by lia.
    replace (Zpos m) with (Zpos m * 2 ^ 0) at 1 by (rewrite Z.pow_0_r; lia).
    rewrite binary_round_aux_exact; unfold emin, prec64, emax64; try lia.
    f_equal; [| lia].
    apply Pos2Z.inj. rewrite norm53_eq, Hl by lia. simpl. lia.
  - lia.
  - assert (Hd : Zpos d = 52 - Z.log2 (Zpos m)) by lia.
    replace (Zpos (Pos.iter xO m d)) with (Zpos (norm53 m) * 2 ^ 0)
      by (rewrite iter_xO, norm53_eq, Hd, Z.pow_0_r by lia; lia).
    rewrite binary_round_aux_exact; unfold emin, prec64, emax64; try lia.
    + f_equal. lia.
    + rewrite norm53_log2; lia.
Qed.

Lemma f32_to_f64_finite (s : bool) (m : positive) (e : Z) :
  valid32 (S754_finite s m e) ->
  f32_to_f64 (S754_finite s m e)
  = S754_finite s (norm53 m) (e - (52 - Z.log2 (Zpos m))).
Proof.
  intro H. apply valid32_bounds in H. destruct H as [Hm He].
  unfold f32_to_f64, binary_normalize.
  destruct s; cbn [cond_Zopp Z.opp]; apply binary_round64_exact; lia.
Qed.

Lemma Number_32767 : Number_of_Z 32767 = S754_finite false 9006924376834048 (-38).
Proof. reflexivity. Qed.

Lemma Number_m32768 : Number_of_Z (-32768) = S754_finite true 4503599627370496 (-37).
Proof. reflexivity. Qed.

(** [float32[i] * 0x7fff] is computed without rounding error. *)
Lemma scale_exact (s : bool) (m : positive) (e : Z) :
  valid32 (S754_finite s m e) ->
  scale (S754_finite s m e)
  = S754_finite s (norm53 (m * 32767)) (e - (52 - Z.log2 (Zpos (m * 32767)))).
Proof.
  intro H. unfold scale. rewrite (f32_to_f64_finite _ _ _ H), Number_32767.
  apply valid32_bounds in H. destruct H as [Hm He].
  pose proof (Z.log2_nonneg (Zpos m)) as Hm0.
  assert (Hp : 14 <= Z.log2 (Zpos (m * 32767)) <= 38).
  { split.
    - change 14 with (Z.log2 (2 ^ 14)). apply Z.log2_le_mono. lia.
    - assert (Z.log2 (Zpos (m * 32767)) < 39); [| lia].
      apply Z.log2_lt_pow2; [lia |].
      assert (Zpos m < 2 ^ 24) by (apply Z.log2_lt_pow2; lia). lia. }
  unfold Number_mul, SFmul. rewrite xorb_false_r.
  remember (m * 32767)%positive as P eqn:EP.
  remember (Z.log2 (Zpos P) + 38 - Z.log2 (Zpos m)) as k eqn:Ek.
  assert (HM : Zpos (norm53 m * 9006924376834048) = Zpos (norm53 P) * 2 ^ k).
  { rewrite Pos2Z.inj_mul, !norm53_eq by lia.
    rewrite EP at 1. rewrite Pos2Z.inj_mul.
    change (Zpos 9006924376834048) with (32767 * 2 ^ 38).
    transitivity (Zpos m * 32767 * 2 ^ ((52 - Z.log2 (Zpos m)) + 38)).
    - rewrite Z.pow_add_r by lia. ring.
    - rewrite <- (Z.mul_assoc (Zpos m * 32767)), <- Z.pow_add_r by lia.
      do 2 f_equal. lia. }
  rewrite HM.
  rewrite binary_round_aux_exact; unfold emin, prec64, emax64; try lia.
  - f_equal. lia.
  - rewrite norm53_log2; lia.
Qed.

End Widening.

Section ClampStore.

Lemma compare_cont_Z (a b : positive) :
  Pos.compare_cont Eq a b = Z.compare (Zpos a) (Zpos b).
Proof. reflexivity. Qed.

Lemma wrap16_id (n : Z) : -32768 <= n <= 32767 ->
  (let int16bit := n mod 65536 in
   if 32768 <=? int16bit then int16bit - 65536 else int16bit) = n.
Proof.
  intro H. cbv zeta.
  pose proof (Z.mod_pos_bound n 65536 ltac:(lia)).
  pose proof (Z.div_mod n 65536 ltac:(lia)).
  destruct (Z.leb_spec 32768 (n mod 65536)); lia.
Qed.

Lemma log2_52_bounds (M : positive) : Z.log2 (Zpos M) = 52 ->
  2 ^ 52 <= Zpos M < 2 ^ 53.
Proof.
  intro H. pose proof (Z.log2_spec (Zpos M) ltac:(lia)) as HS.
  rewrite H in HS. exact HS.
Qed.

(** The integral part of a normal binary64 value with a negative exponent,
    through the value scaled by [2^187]. *)
Lemma truncate_scaled (s : bool) (M : positive) (E : Z) :
  -187 <= E < 0 ->
  truncate (S754_finite s M E)
  = cond_Zopp s ((Zpos M * 2 ^ (E + 187)) / 2 ^ 187).
Proof.
  intros HE. destruct E as [| p | p]; try lia.
  unfold truncate. f_equal.
  rewrite Z.shiftr_div_pow2 by lia.
  replace (2 ^ 187) with (2 ^ Zpos p * 2 ^ (Zneg p + 187)).
  - rewrite Z.div_mul_cancel_r; [reflexivity | |]; apply Z.pow_nonzero; lia.
  - rewrite <- Z.pow_add_r by lia. f_equal. lia.
Qed.

(** The clamping tests and the store, on a normal binary64 value given by
    its value scaled by [2^187]. *)
Lemma clamp_store (s : bool) (M : positive) (E : Z) :
  Z.log2 (Zpos M) = 52 -> -187 <= E ->
  let W := Zpos M * 2 ^ (E + 187) in
  ToInt16 (clamp (S754_finite s M E))
  = if s then (if 32768 * 2 ^ 187 <? W then -32768 else - (W / 2 ^ 187))
    else (if 32767 * 2 ^ 187 <? W then 32767 else W / 2 ^ 187).
Proof.
  intros HM HE W.
  apply log2_52_bounds in HM.
  assert (HU : 0 < 2 ^ (E + 187)) by (apply Z.pow_pos_nonneg; lia).
  unfold clamp, Number_gt, Number_lt, SFltb, SFcompare.
  rewrite Number_32767, Number_m32768.
  destruct s.
  - (* negative *)
    destruct (Z.compare_spec E (-37)) as [HE' | HE' | HE'].
    + subst E.
      rewrite compare_cont_Z.
      destruct (Z.compare_spec (Zpos M) 4503599627370496) as [HM' | HM' | HM']; cbn [CompOpp].
      * injection HM' as ->. subst W. vm_compute. reflexivity.
      * lia.
      * destruct (Z.ltb_spec (32768 * 2 ^ 187) W); [reflexivity |].
        unfold W in *. lia.
    + assert (2 ^ (E + 187) <= 2 ^ 149) by (apply Z.pow_le_mono_r; lia).
      assert (W <= 2 ^ 53 * 2 ^ 149) by (unfold W; apply Z.mul_le_mono_nonneg; lia).
      destruct (Z.ltb_spec (32768 * 2 ^ 187) W); [lia |].
      unfold ToInt16. rewrite truncate_scaled by lia. cbn [cond_Zopp]. fold W.
      apply wrap16_id.
      assert (0 <= W / 2 ^ 187) by (apply Z.div_pos; unfold W; lia).
      assert (W / 2 ^ 187 <= 32768) by (apply Z.div_le_upper_bound; lia).
      lia.
    + assert (2 ^ 151 <= 2 ^ (E + 187)) by (apply Z.pow_le_mono_r; lia).
      assert (2 ^ 52 * 2 ^ 151 <= W) by (unfold W; apply Z.mul_le_mono_nonneg; lia).
      destruct (Z.ltb_spec (32768 * 2 ^ 187) W); [reflexivity | lia].
  - (* positive *)
    destruct (Z.compare_spec (-38) E) as [HE' | HE' | HE'].
    + subst E.
      rewrite compare_cont_Z.
      destruct (Z.compare_spec 9006924376834048 (Zpos M)) as [HM' | HM' | HM'].
      * injection HM' as <-. subst W. vm_compute. reflexivity.
      * destruct (Z.ltb_spec (32767 * 2 ^ 187) W); [reflexivity |].
        unfold W in *. lia.
      * destruct (Z.ltb_spec (32767 * 2 ^ 187) W); [unfold W in *; lia |].
        unfold ToInt16. rewrite truncate_scaled by lia. cbn [cond_Zopp]. fold W.
        apply wrap16_id.
        assert (0 <= W / 2 ^ 187) by (apply Z.div_pos; unfold W; lia).
        assert (W / 2 ^ 187 <= 32767) by (apply Z.div_le_upper_bound; lia).
        lia.
    + assert (2 ^ 150 <= 2 ^ (E + 187)) by (apply Z.pow_le_mono_r; lia).
      assert (2 ^ 52 * 2 ^ 150 <= W) by (unfold W; apply Z.mul_le_mono_nonneg; lia).
      destruct (Z.ltb_spec (32767 * 2 ^ 187) W); [reflexivity | lia].
    + assert (2 ^ (E + 187) <= 2 ^ 148) by (apply Z.pow_le_mono_r; lia).
      assert (W <= 2 ^ 53 * 2 ^ 148) by (unfold W; apply Z.mul_le_mono_nonneg; lia).
      destruct (Z.ltb_spec (32767 * 2 ^ 187) W); [lia |].
      unfold ToInt16. rewrite truncate_scaled by lia. cbn [cond_Zopp]. fold W.
      apply wrap16_id.
      assert (0 <= W / 2 ^ 187) by (apply Z.div_pos; unfold W; lia).
      assert (W / 2 ^ 187 <= 32767) by (apply Z.div_le_upper_bound; lia).
      lia.
Qed.

End ClampStore.

Section Refinement.

Lemma encode_sample_scaled (s : bool) (m : positive) (e : Z) :
  valid32 (S754_finite s m e) ->
  encode_sample (S754_finite s m e) = stored s (Zpos m * 32767 * 2 ^ (e + 187)).
Proof.
  intro H. unfold encode_sample. rewrite (scale_exact _ _ _ H).
  apply valid32_bounds in H. destruct H as [Hm He].
  assert (Hp : 14 <= Z.log2 (Zpos (m * 32767)) <= 38).
  { split.
    - change 14 with (Z.log2 (2 ^ 14)). apply Z.log2_le_mono. lia.
    - assert (Z.log2 (Zpos (m * 32767)) < 39); [| lia].
      apply Z.log2_lt_pow2; [lia |].
      assert (Zpos m < 2 ^ 24) by (apply Z.log2_lt_pow2; lia). lia. }
  rewrite clamp_store by (try apply norm53_log2; lia).
  cbv zeta. unfold stored.
  replace (Zpos (norm53 (m * 32767)) * 2 ^ (e - (52 - Z.log2 (Zpos (m * 32767))) + 187))
    with (Zpos m * 32767 * 2 ^ (e + 187)); [reflexivity |].
  rewrite norm53_eq by lia.
  rewrite <- (Z.mul_assoc (Zpos (m * 32767))), <- Z.pow_add_r by lia.
  rewrite Pos2Z.inj_mul. do 2 f_equal. lia.
Qed.

Lemma Qpow2_scaled (e : Z) : -187 <= e ->
  (Qpow2 e == (2 ^ (e + 187)) # (2 ^ 187))%Q.
Proof.
  intro He. unfold Qpow2, Qeq. destruct e as [| p | p]; cbn [Qnum Qden inject_Z].
  - reflexivity.
  - rewrite Z.pow_add_r by lia. rewrite Pos2Z.inj_pow. lia.
  - rewrite !Pos2Z.inj_pow, <- Z.pow_add_r by lia.
    rewrite Z.mul_1_l. f_equal. lia.
Qed.

Lemma SF2Q_scaled (s : bool) (m : positive) (e : Z) : -187 <= e ->
  (SF2Q (S754_finite s m e) * 32767
   == (cond_Zopp s (Zpos m * 32767 * 2 ^ (e + 187))) # (2 ^ 187))%Q.
Proof.
  intro He. unfold SF2Q. rewrite (Qpow2_scaled e He).
  unfold Qeq, Qmult, inject_Z. cbn [Qnum Qden].
  destruct s; cbn [cond_Zopp]; rewrite ?Pos.mul_1_l, ?Pos.mul_1_r; ring.
Qed.

Lemma Qclamp16_comp (a b : Q) : (a == b)%Q -> (Qclamp16 a == Qclamp16 b)%Q.
Proof.
  intro H. unfold Qclamp16.
  assert (H1 : Qle_bool a 32767 = Qle_bool b 32767) by (rewrite H; reflexivity).
  assert (H2 : Qle_bool (-32768) a = Qle_bool (-32768) b) by (rewrite H; reflexivity).
  rewrite H1, H2.
  destruct (Qle_bool b 32767); [| reflexivity].
  destruct (Qle_bool (-32768) b); [assumption | reflexivity].
Qed.

Lemma Qtruncate_comp (a b : Q) : (a == b)%Q -> Qtruncate a = Qtruncate b.
Proof.
  intro H. unfold Qtruncate.
  assert (H1 : Qle_bool 0 a = Qle_bool 0 b) by (rewrite H; reflexivity).
  rewrite H1.
  destruct (Qle_bool 0 b); [apply Qfloor_comp | apply Qceiling_comp]; assumption.
Qed.

Lemma spec_encode_scaled (s : bool) (W : Z) : 0 < W ->
  Qtruncate (Qclamp16 ((cond_Zopp s W) # (2 ^ 187))) = stored s W.
Proof.
  intro HW. unfold Qclamp16, Qtruncate, stored, Qle_bool.
  cbn [Qnum Qden]. rewrite !Pos2Z.inj_pow.
  assert (HD : 0 < 2 ^ 187) by (apply Z.pow_pos_nonneg; lia).
  destruct s; cbn [cond_Zopp].
  - destruct (Z.leb_spec (- W * 1) (32767 * 2 ^ 187)); [| lia].
    destruct (Z.leb_spec (-32768 * 2 ^ 187) (- W * 1)).
    + destruct (Z.ltb_spec (32768 * 2 ^ 187) W); [lia |].
      cbn [Qnum Qden]. rewrite !Pos2Z.inj_pow.
      destruct (Z.leb_spec (0 * 2 ^ 187) (- W * 1)); [lia |].
      unfold Qceiling, Qfloor, Qopp. cbn [Qnum Qden].
      rewrite Z.opp_involutive, Pos2Z.inj_pow. reflexivity.
    + destruct (Z.ltb_spec (32768 * 2 ^ 187) W); [| lia].
      reflexivity.
  - destruct (Z.leb_spec (W * 1) (32767 * 2 ^ 187)).
    + destruct (Z.leb_spec (-32768 * 2 ^ 187) (W * 1)); [| lia].
      destruct (Z.ltb_spec (32767 * 2 ^ 187) W); [lia |].
      cbn [Qnum Qden]. rewrite !Pos2Z.inj_pow.
      destruct (Z.leb_spec (0 * 2 ^ 187) (W * 1)); [| lia].
      unfold Qfloor. rewrite Pos2Z.inj_pow. reflexivity.
    + destruct (Z.ltb_spec (32767 * 2 ^ 187) W); [| lia].
      reflexivity.
Qed.

(** The encoder computes what the specification words say, exactly. *)
Lemma encode_sample_refines (s : bool) (m : positive) (e : Z) :
  valid32 (S754_finite s m e) ->
  encode_sample (S754_finite s m e) = spec_encode (SF2Q (S754_finite s m e)).
Proof.
  intro H. rewrite (encode_sample_scaled _ _ _ H).
  apply valid32_bounds in H. destruct H as [Hm He].
  unfold spec_encode.
  rewrite (Qtruncate_comp _ _ (Qclamp16_comp _ _ (SF2Q_scaled s m e ltac:(lia)))).
  symmetry. apply spec_encode_scaled.
  apply Z.mul_pos_pos; [lia | apply Z.pow_pos_nonneg; lia].
Qed.

End Refinement.

(* ------------------------------------------------------------------ *)
(** ** The Frame Encoder *)
(* ------------------------------------------------------------------ *)

Section EncoderFacts.

Lemma ToInt16_range (x : spec_float) : -32768 <= ToInt16 x <= 32767.
Proof.
  unfold ToInt16.
  pose proof (Z.mod_pos_bound (truncate x) 65536 ltac:(lia)).
  destruct (Z.leb_spec 32768 (truncate x mod 65536)); lia.
Qed.

Lemma encode_sample_range (x : spec_float) : -32768 <= encode_sample x <= 32767.
Proof. apply ToInt16_range. Qed.

Lemma int16_of_bytes_id (v : Z) : -32768 <= v <= 32767 ->
  int16_of_bytes (v mod 256) ((v / 256) mod 256) = v.
Proof.
  intro H. unfold int16_of_bytes.
  pose proof (Z.div_mod v 256 ltac:(lia)).
  pose proof (Z.mod_pos_bound v 256 ltac:(lia)).
  pose proof (Z.div_mod (v / 256) 256 ltac:(lia)).
  pose proof (Z.mod_pos_bound (v / 256) 256 ltac:(lia)).
  destruct (Z.leb_spec 32768 (v mod 256 + 256 * ((v / 256) mod 256))); lia.
Qed.

Lemma Int16Array_view (l : list Z) :
  Forall (fun v => -32768 <= v <= 32767) l ->
  Int16Array_of_buffer (Int16Array_buffer l) = Some l.
Proof.
  induction 1 as [| v l Hv Hl IH]; [reflexivity |].
  cbn [Int16Array_buffer flat_map int16_bytes app Int16Array_of_buffer].
  fold (Int16Array_buffer l). rewrite IH, int16_of_bytes_id by assumption. reflexivity.
Qed.

Lemma Int16Array_byteLength (l : list Z) :
  List.length (Int16Array_buffer l) = (2 * List.length l)%nat.
Proof.
  induction l as [| v l IH]; [reflexivity |].
  cbn [Int16Array_buffer flat_map int16_bytes app List.length].
  fold (Int16Array_buffer l). rewrite IH. lia.
Qed.

(** Truncation moves a value by less than one. *)
Lemma Qtruncate_near (v : Q) :
  (v - 1 < inject_Z (Qtruncate v) /\ inject_Z (Qtruncate v) < v + 1)%Q.
Proof.
  unfold Qtruncate.
  destruct (Qle_bool 0 v).
  - pose proof (Qfloor_le v) as H1. pose proof (Qlt_floor v) as H2.
    rewrite inject_Z_plus in H2. split.
    + apply Qplus_lt_l with (z := 1%Q). ring_simplify. exact H2.
    + apply Qle_lt_trans with (y := v); [exact H1 |].
      rewrite <- (Qplus_0_r v) at 1. apply Qplus_lt_r. reflexivity.
  - pose proof (Qle_ceiling v) as H1. pose proof (Qceiling_lt v) as H2.
    unfold Z.sub in H2. rewrite inject_Z_plus in H2. split.
    + apply Qlt_le_trans with (y := v); [| exact H1].
      rewrite <- (Qplus_0_r v) at 2. apply Qplus_lt_r. reflexivity.
    + apply Qplus_lt_l with (z := inject_Z (-1)). 
      setoid_replace (v + 1 + inject_Z (-1))%Q with v by (unfold inject_Z; ring).
      exact H2.
Qed.

Lemma Qtruncate_Z (z : Z) : Qtruncate (inject_Z z) = z.
Proof.
  unfold Qtruncate. destruct (Qle_bool 0 (inject_Z z)); [apply Qfloor_Z | apply Qceiling_Z].
Qed.

(** The three regimes of the specified encoder. *)
Lemma spec_encode_regimes (q : Q) :
  let v := (q * 32767)%Q in
  ((32767 <= v)%Q -> spec_encode q = 32767)
  /\ ((v <= -32768)%Q -> spec_encode q = -32768)
  /\ (-32768 <= v -> v <= 32767 ->
      v - 1 < inject_Z (spec_encode q) /\ inject_Z (spec_encode q) < v + 1)%Q.
Proof.
  intro v. unfold spec_encode. fold v. unfold Qclamp16.
  destruct (Qle_bool v 32767) eqn:Hhi; destruct (Qle_bool (-32768) v) eqn:Hlo.
  - apply Qle_bool_iff in Hhi. apply Qle_bool_iff in Hlo.
    split; [| split].
    + intro H. assert (E : (v == 32767)%Q) by (apply Qle_antisym; assumption).
      rewrite (Qtruncate_comp _ _ E). apply (Qtruncate_Z 32767).
    + intro H. assert (E : (v == -32768)%Q) by (apply Qle_antisym; assumption).
      rewrite (Qtruncate_comp _ _ E). apply (Qtruncate_Z (-32768)).
    + intros _ _. apply Qtruncate_near.
  - apply Qle_bool_iff in Hhi.
    assert (Hlt : ~ (-32768 <= v)%Q) by (rewrite <- Qle_bool_iff; congruence).
    split; [| split].
    + intro H. exfalso. apply Hlt. apply Qle_trans with (y := 32767%Q); [discriminate | exact H].
    + intros _. apply (Qtruncate_Z (-32768)).
    + intros H. contradiction.
  - assert (Hlt : ~ (v <= 32767)%Q) by (rewrite <- Qle_bool_iff; congruence).
    apply Qle_bool_iff in Hlo.
    split; [| split].
    + intros _. apply (Qtruncate_Z 32767).
    + intro H. exfalso. apply Hlt. apply Qle_trans with (y := (-32768)%Q); [exact H | discriminate].
    + intros _ H. contradiction.
  - assert (Hlt : ~ (v <= 32767)%Q) by (rewrite <- Qle_bool_iff; congruence).
    split; [| split].
    + intros _. apply (Qtruncate_Z 32767).
    + intro H. exfalso. apply Hlt. apply Qle_trans with (y := (-32768)%Q); [exact H | discriminate].
    + intros _ H. contradiction.
Qed.

Lemma encode_sample_zero (s : bool) : encode_sample (S754_zero s) = 0.
Proof. destruct s; reflexivity. Qed.

Lemma spec_encode_0 : spec_encode 0 = 0.
Proof. reflexivity. Qed.

Lemma encode_sample_clamps (x : spec_float) :
  valid32 x -> scaled_and_clamped x (encode_sample x).
Proof.
  intro H. split; [apply encode_sample_range |].
  destruct x as [s | s | | s m e].
  - rewrite encode_sample_zero. change (SF2Q (S754_zero s)) with 0%Q.
    rewrite <- spec_encode_0. apply spec_encode_regimes.
  - destruct s; reflexivity.
  - reflexivity.
  - rewrite (encode_sample_refines _ _ _ H). apply spec_encode_regimes.
Qed.

Lemma all_bits_spec (k : nat) (P : Z -> bool) : forall base,
  all_bits k P base = true ->
  forall v, base <= v < base + 2 ^ Z.of_nat k -> P v = true.
Proof.
  induction k as [| k IH]; intros base H v Hv.
  - cbn in Hv. replace v with base by lia. exact H.
  - cbn [all_bits] in H. apply andb_true_iff in H. destruct H as [H1 H2].
    rewrite Nat2Z.inj_succ, Z.pow_succ_r in Hv by lia.
    destruct (Z.lt_ge_cases v (base + 2 ^ Z.of_nat k)).
    + apply (IH base H1). lia.
    + apply (IH _ H2). lia.
Qed.

Lemma div_eucl_pair (a b : Z) : Z.div_eucl a b = (a / b, a mod b).
Proof. unfold Z.div, Z.modulo. destruct (Z.div_eucl a b). reflexivity. Qed.

Lemma Number_of_Z_pos (s : bool) (p : positive) : Z.log2 (Zpos p) <= 52 ->
  Number_of_Z (cond_Zopp s (Zpos p))
  = S754_finite s (norm53 p) (Z.log2 (Zpos p) - 52).
Proof.
  intro H. unfold Number_of_Z, binary_normalize.
  destruct s; cbn [cond_Zopp Z.opp];
    rewrite binary_round64_exact by lia; f_equal; lia.
Qed.

(** The quotient of an integer by 32767, with the 38 common low zero bits of
    dividend and divisor cancelled. *)
Lemma Number_div_32767 (s : bool) (p : positive) : Z.log2 (Zpos p) <= 52 ->
  Number_div (S754_finite s (norm53 p) (Z.log2 (Zpos p) - 52)) (Number_of_Z 32767)
  = quotient_32767 s p.
Proof.
  intro H. pose proof (Z.log2_nonneg (Zpos p)) as H0.
  rewrite Number_32767. unfold Number_div, SFdiv, SFdiv_core_binary.
  cbn [Zdigits2]. rewrite !digits2_pos_log2, norm53_log2 by lia.
  change (Z.log2 (Zpos 9006924376834048)) with 52.
  replace (fexp prec64 emax64 (52 + 1 + (Z.log2 (Zpos p) - 52) - (52 + 1 + -38)))
    with (Z.log2 (Zpos p) - 67) by (unfold fexp, emin, prec64, emax64; lia).
  replace (Z.min (Z.log2 (Zpos p) - 67) (Z.log2 (Zpos p) - 52 - -38))
    with (Z.log2 (Zpos p) - 67) by lia.
  replace (Z.log2 (Zpos p) - 52 - -38 - (Z.log2 (Zpos p) - 67)) with 53 by lia.
  rewrite Z.shiftl_mul_pow2, norm53_eq by lia.
  replace (Zpos p * 2 ^ (52 - Z.log2 (Zpos p)) * 2 ^ 53)
    with (Zpos p * 2 ^ (67 - Z.log2 (Zpos p)) * 2 ^ 38).
  2:{ rewrite <- !Z.mul_assoc, <- !Z.pow_add_r by lia. do 2 f_equal. lia. }
  change (Zpos 9006924376834048) with (32767 * 2 ^ 38).
  rewrite div_eucl_pair, Z.div_mul_cancel_r, Z.mul_mod_distr_r by lia.
  unfold quotient_32767, div_32767. rewrite div_eucl_pair, xorb_false_r.
  set (r := (Zpos p * 2 ^ (67 - Z.log2 (Zpos p))) mod 32767).
  f_equal. unfold new_location.
  change (Z.even (32767 * 2 ^ 38)) with true. unfold new_location_even.
  assert (HK : 0 < 2 ^ 38) by lia.
  replace (r * 2 ^ 38 =? 0) with (r =? 0).
  2:{ destruct (Z.eqb_spec r 0) as [-> | Hr]; [reflexivity |].
      symmetry. apply Z.eqb_neq. lia. }
  rewrite Z.mul_assoc, <- Zmult_compare_compat_r by lia. reflexivity.
Qed.

Lemma decode_sample_fast (v : Z) : -32768 <= v <= 32767 ->
  decode_sample v = decode_fast v.
Proof.
  intro Hv. unfold decode_sample, decode_fast.
  destruct v as [| p | p]; [reflexivity | |].
  - assert (Hl : Z.log2 (Zpos p) <= 52).
    { assert (Z.log2 (Zpos p) < 16) by (apply Z.log2_lt_pow2; lia). lia. }
    change (Zpos p) with (cond_Zopp false (Zpos p)) at 1.
    rewrite (Number_of_Z_pos false p Hl), Number_div_32767 by exact Hl. reflexivity.
  - assert (Hl : Z.log2 (Zpos p) <= 52).
    { assert (Z.log2 (Zpos p) < 16) by (apply Z.log2_lt_pow2; lia). lia. }
    change (Zneg p) with (cond_Zopp true (Zpos p)).
    rewrite (Number_of_Z_pos true p Hl), Number_div_32767 by exact Hl. reflexivity.
Qed.

Lemma stored_shift_eq (s : bool) (m : positive) (e : Z) : -187 <= e < 0 ->
  stored s (Zpos m * 32767 * 2 ^ (e + 187)) = stored_shift s m e.
Proof.
  intro He. unfold stored, stored_shift. cbv zeta.
  assert (HU : 0 < 2 ^ (e + 187)) by (apply Z.pow_pos_nonneg; lia).
  assert (HD : 2 ^ 187 = 2 ^ (- e) * 2 ^ (e + 187))
    by (rewrite <- Z.pow_add_r by lia; f_equal; lia).
  rewrite HD, !Z.mul_assoc.
  rewrite Z.div_mul_cancel_r by (apply Z.pow_nonzero; lia).
  rewrite Z.shiftr_div_pow2 by lia.
  assert (Hlt : forall c, (c * 2 ^ (- e) * 2 ^ (e + 187) <? Zpos m * 32767 * 2 ^ (e + 187))
                          = (c * 2 ^ (- e) <? Zpos m * 32767)).
  { intro c. unfold Z.ltb. rewrite <- Zmult_compare_compat_r by lia. reflexivity. }
  rewrite !Hlt. reflexivity.
Qed.

Lemma encode_sample_fast (x : spec_float) : encode_sample x = encode_fast x.
Proof.
  destruct x as [s | s | | s m e]; try reflexivity.
  unfold encode_fast.
  destruct (valid_binary prec32 emax32 (S754_finite s m e)) eqn:Hv; [| reflexivity].
  destruct (Z.ltb_spec e 0) as [He | He]; [| reflexivity].
  cbn [andb]. rewrite (encode_sample_scaled s m e Hv).
  apply valid32_bounds in Hv. apply stored_shift_eq. lia.
Qed.

Lemma roundtrip_fast (v : Z) : -32768 <= v <= 32767 ->
  roundtrip v = encode_fast (decode_fast v).
Proof.
  intro Hv. unfold roundtrip. rewrite encode_sample_fast, decode_sample_fast by exact Hv.
  reflexivity.
Qed.

(** Every int16 value passes [roundtrip_near]. *)
Lemma roundtrip_near_all : all_bits 16 roundtrip_near (-32768) = true.
Proof. vm_compute. reflexivity. Qed.

End EncoderFacts.

(* ------------------------------------------------------------------ *)
(** ** The controller: what a step does to the socket and the state *)
(* ------------------------------------------------------------------ *)

Section Controller.

(** The four ways through [_ensureAudioPipeline]. *)
Ltac ensure_cases :=
  unfold _ensureAudioPipeline;
  destruct (audioCtx _); [reflexivity |];
  destruct (addModule_ok _); cbn; [| reflexivity];
  destruct (getUserMedia _); reflexivity.

Lemma ensure_emitted env st : emitted (fst (_ensureAudioPipeline env st)) = emitted st.
Proof. ensure_cases. Qed.

Lemma ensure_isRecording env st :
  isRecording (fst (_ensureAudioPipeline env st)) = isRecording st.
Proof. ensure_cases. Qed.

Lemma start_emitted env st : emitted (fst (start env st)) = emitted st.
Proof.
  unfold start. destruct (isRecording st); [reflexivity |].
  pose proof (ensure_emitted env st) as H.
  destruct (_ensureAudioPipeline env st) as [st' [| e]]; exact H.
Qed.

Lemma play_emitted now c st : emitted (fst (_playAssistant now c st)) = emitted st.
Proof.
  unfold _playAssistant. destruct (float32 c); destruct (audioCtx st); reflexivity.
Qed.

Lemma play_isRecording now c st :
  isRecording (fst (_playAssistant now c st)) = isRecording st.
Proof.
  unfold _playAssistant. destruct (float32 c); destruct (audioCtx st); reflexivity.
Qed.

Lemma step_emitted ev st : emitted (fst (step ev st)) = emitted st ++ sends ev st.
Proof.
  destruct ev as [env | | env | inputs | now audio | text]; cbn [step sends fst].
  - rewrite start_emitted, app_nil_r. reflexivity.
  - unfold stop. destruct (isRecording st); cbn; [reflexivity | now rewrite app_nil_r].
  - unfold toggle, stop. destruct (isRecording st) eqn:E; cbn; rewrite ?E; cbn.
    + reflexivity.
    + rewrite start_emitted, app_nil_r. reflexivity.
  - destruct (worklet st); [| now rewrite app_nil_r].
    destruct (snd (process inputs)); cbn; [reflexivity | now rewrite app_nil_r].
  - unfold on_assistant_audio. destruct (b64ToPCM audio); cbn.
    + rewrite play_emitted, app_nil_r. reflexivity.
    + now rewrite app_nil_r.
  - now rewrite app_nil_r.
Qed.

(** A commit leaves exactly when the step takes Recording to Idle. *)
Lemma sends_commit ev st :
  List.length (filter is_commit (sends ev st))
  = if Recording_to_Idle st (fst (step ev st)) then 1%nat else 0%nat.
Proof.
  unfold Recording_to_Idle.
  destruct ev as [env | | env | inputs | now audio | text]; cbn [step sends fst].
  - unfold start. destruct (isRecording st) eqn:E; cbn; rewrite ?E; [reflexivity |].
    reflexivity.
  - unfold stop. destruct (isRecording st) eqn:E; cbn; rewrite ?E; reflexivity.
  - unfold toggle, stop. destruct (isRecording st) eqn:E; cbn; rewrite ?E; reflexivity.
  - destruct (worklet st); [| now rewrite andb_negb_r].
    destruct (snd (process inputs)); cbn; now rewrite andb_negb_r.
  - unfold on_assistant_audio. destruct (b64ToPCM audio); cbn.
    + rewrite play_isRecording. now rewrite andb_negb_r.
    + now rewrite andb_negb_r.
  - now rewrite andb_negb_r.
Qed.

Lemma step_commits ev st :
  commits (fst (step ev st))
  = (commits st + if Recording_to_Idle st (fst (step ev st)) then 1 else 0)%nat.
Proof.
  unfold commits. rewrite step_emitted, filter_app, length_app, sends_commit. reflexivity.
Qed.

Lemma run_commits evs : forall st,
  commits (run evs st) = (commits st + transitions Recording_to_Idle (trace evs st))%nat.
Proof.
  induction evs as [| ev evs IH]; intro st; cbn [run trace transitions].
  - lia.
  - rewrite IH, step_commits.
    destruct evs; cbn [trace transitions]; lia.
Qed.

(** Every passage to Idle is preceded by one into Recording. *)
Lemma transitions_alternate evs : forall st,
  (transitions Recording_to_Idle (trace evs st)
   <= (if isRecording st then 1 else 0) + transitions Idle_to_Recording (trace evs st))%nat
  /\ (isRecording (run evs st) = true ->
      transitions Recording_to_Idle (trace evs st) + 1
      <= (if isRecording st then 1 else 0) + transitions Idle_to_Recording (trace evs st))%nat.
Proof.
  induction evs as [| ev evs IH]; intro st; cbn [run trace transitions].
  - split; [lia |]. intros ->. lia.
  - destruct (IH (fst (step ev st))) as [IH1 IH2].
    unfold Recording_to_Idle at 1 3, Idle_to_Recording at 1 3.
    destruct evs as [| ev' evs]; cbn [trace transitions run] in *;
      destruct (isRecording st), (isRecording (fst (step ev st))); cbn in *; split; try lia;
      intro H; specialize (IH2 H); lia.
Qed.

Lemma ensure_started env st : started (fst (_ensureAudioPipeline env st)) = started st.
Proof. ensure_cases. Qed.

Lemma start_started env st : started (fst (start env st)) = started st.
Proof.
  unfold start. destruct (isRecording st); [reflexivity |].
  pose proof (ensure_started env st) as H.
  destruct (_ensureAudioPipeline env st) as [st' [| e]]; exact H.
Qed.

Lemma step_started ev st : started (fst (step ev st)) = started st ++ plays ev.
Proof.
  destruct ev as [env | | env | inputs | now audio | text]; cbn [step plays fst].
  - rewrite start_started, app_nil_r. reflexivity.
  - unfold stop. destruct (isRecording st); cbn; now rewrite app_nil_r.
  - unfold toggle, stop. destruct (isRecording st) eqn:E; cbn.
    + now rewrite app_nil_r.
    + rewrite start_started, app_nil_r. reflexivity.
  - destruct (worklet st); [| now rewrite app_nil_r].
    destruct (snd (process inputs)); cbn; now rewrite app_nil_r.
  - unfold on_assistant_audio. destruct (b64ToPCM audio) as [c | e]; cbn.
    + unfold _playAssistant. destruct (float32 c); destruct (audioCtx st); cbn;
        rewrite ?app_nil_r; reflexivity.
    + now rewrite app_nil_r.
  - now rewrite app_nil_r.
Qed.

Lemma run_started evs : forall st,
  started (run evs st) = started st ++ flat_map plays evs.
Proof.
  induction evs as [| ev evs IH]; intro st; cbn [run flat_map].
  - now rewrite app_nil_r.
  - rewrite IH, step_started, <- app_assoc. reflexivity.
Qed.

Lemma plays_start ev s : In s (plays ev) ->
  exists now audio, ev = EAssistantAudio now audio /\ src_start s = now.
Proof.
  destruct ev as [env | | env | inputs | now audio | text]; cbn; try contradiction.
  destruct (b64ToPCM audio) as [c | e]; [| contradiction].
  destruct (float32 c); [contradiction |].
  intros [<- | []]. exists now, audio. split; reflexivity.
Qed.

Lemma quantum_sent (inputs : list (list (list spec_float))) (st : State) :
  worklet st = true ->
  fst (step (EQuantum inputs) st)
  = match snd (process inputs) with
    | Some data => socket_emit (audio_chunk data) st
    | None => st
    end.
Proof.
  intro H. cbn [step]. rewrite H. destruct (snd (process inputs)); reflexivity.
Qed.

Lemma run_quanta_built (qs : list (list (list (list spec_float)))) : forall st,
  worklet st = true ->
  Forall (fun q => has_data q = true) qs ->
  run (map EQuantum qs) st
  = fold_left (fun s q => socket_emit (audio_chunk (posted q)) s) qs st.
Proof.
  induction qs as [| q qs IH]; intros st Hw Hq; [reflexivity |].
  inversion Hq as [| q' qs' Hd Hqs]; subst.
  cbn [map run fold_left]. rewrite quantum_sent by assumption.
  destruct q as [| [| float32 channels] rest]; try discriminate.
  cbn [process snd posted]. apply IH; [exact Hw | exact Hqs].
Qed.

Lemma fold_emit (qs : list (list (list (list spec_float)))) : forall st,
  let st' := fold_left (fun s q => socket_emit (audio_chunk (posted q)) s) qs st in
  emitted st' = emitted st ++ map (fun q => audio_chunk (posted q)) qs
  /\ isRecording st' = isRecording st /\ worklet st' = worklet st
  /\ button_active st' = button_active st.
Proof.
  induction qs as [| q qs IH]; intro st; cbn [fold_left map].
  - rewrite app_nil_r. repeat split.
  - destruct (IH (socket_emit (audio_chunk (posted q)) st)) as (E & R & W & B).
    cbv zeta in *. rewrite E, R, W, B. cbn [socket_emit emitted isRecording worklet button_active].
    rewrite <- app_assoc. repeat split.
Qed.

Lemma run_quanta_unbuilt (qs : list (list (list (list spec_float)))) : forall st,
  worklet st = false -> run (map EQuantum qs) st = st.
Proof.
  induction qs as [| q qs IH]; intros st Hw; [reflexivity |].
  cbn [map run step]. rewrite Hw. cbn [fst]. apply IH, Hw.
Qed.

Lemma run_app (evs1 evs2 : list Event) : forall st,
  run (evs1 ++ evs2) st = run evs2 (run evs1 st).
Proof.
  induction evs1 as [| ev evs1 IH]; intro st; [reflexivity |].
  cbn [app run]. apply IH.
Qed.

Lemma filter_chunks_all (qs : list (list (list (list spec_float)))) :
  filter is_chunk (map (fun q => audio_chunk (posted q)) qs)
  = map (fun q => audio_chunk (posted q)) qs.
Proof. induction qs as [| q qs IH]; cbn; [| rewrite IH]; reflexivity. Qed.

Lemma filter_commits_none (qs : list (list (list (list spec_float)))) :
  filter is_commit (map (fun q => audio_chunk (posted q)) qs) = [].
Proof. induction qs as [| q qs IH]; cbn; [| rewrite IH]; reflexivity. Qed.

Lemma start_noop (env : Env) (st : State) :
  isRecording st = true -> start env st = (st, Returned).
Proof. intro H. unfold start. rewrite H. reflexivity. Qed.

Lemma stop_noop (st : State) : isRecording st = false -> stop st = st.
Proof. intro H. unfold stop. rewrite H. reflexivity. Qed.

Lemma start_built (env : Env) (st : State) (rate : Z) :
  isRecording st = false -> audioCtx st = Some rate ->
  start env st = (set_isRecording true (set_button_active true st), Returned).
Proof.
  intros H Hc. unfold start, _ensureAudioPipeline. rewrite H, Hc. reflexivity.
Qed.

Lemma start_first (env : Env) (st : State) :
  isRecording st = false -> audioCtx st = None ->
  addModule_ok env = true -> getUserMedia env = Granted ->
  start env st
  = (set_isRecording true (set_button_active true
       (set_worklet true (set_stream true
          (count_getUserMedia (set_audioCtx (Some 24000) st))))), Returned).
Proof.
  intros H Hc Hm Hg. unfold start, _ensureAudioPipeline. rewrite H, Hc, Hm, Hg. reflexivity.
Qed.

Lemma start_refused (env : Env) (st : State) (e : Exception) :
  isRecording st = false -> audioCtx st = None ->
  addModule_ok env = true -> getUserMedia env = Refused e ->
  start env st = (count_getUserMedia (set_audioCtx (Some 24000) st), Threw e).
Proof.
  intros H Hc Hm Hg. unfold start, _ensureAudioPipeline. rewrite H, Hc, Hm, Hg. reflexivity.
Qed.

Lemma ensure_button env st :
  button_active (fst (_ensureAudioPipeline env st)) = button_active st.
Proof. ensure_cases. Qed.

(** The mic button shows exactly the recording state. *)
Lemma step_button_follows ev st :
  button_active st = isRecording st ->
  button_active (fst (step ev st)) = isRecording (fst (step ev st)).
Proof.
  intro H.
  destruct ev as [env | | env | inputs | now audio | text]; cbn [step fst].
  - unfold start. destruct (isRecording st) eqn:E; [cbn; congruence |].
    pose proof (ensure_button env st) as Hb. pose proof (ensure_isRecording env st) as Hr.
    destruct (_ensureAudioPipeline env st) as [st' [| e]]; cbn [fst] in *; [reflexivity |].
    congruence.
  - unfold stop. destruct (isRecording st) eqn:E; cbn; [reflexivity | congruence].
  - unfold toggle, stop. destruct (isRecording st) eqn:E; cbn; [reflexivity |].
    unfold start. rewrite E.
    pose proof (ensure_button env st) as Hb. pose proof (ensure_isRecording env st) as Hr.
    destruct (_ensureAudioPipeline env st) as [st' [| e]]; cbn [fst] in *; [reflexivity |].
    congruence.
  - destruct (worklet st); [| exact H].
    destruct (snd (process inputs)); cbn; exact H.
  - unfold on_assistant_audio. destruct (b64ToPCM audio) as [c | e]; cbn; [| exact H].
    unfold _playAssistant. destruct (float32 c); destruct (audioCtx st); cbn; exact H.
  - exact H.
Qed.

Lemma run_button_follows evs : forall st,
  button_active st = isRecording st ->
  button_active (run evs st) = isRecording (run evs st).
Proof.
  induction evs as [| ev evs IH]; intros st H; [exact H |].
  cbn [run]. apply IH, step_button_follows, H.
Qed.

End Controller.

(* ================================================================== *)
(** * The claims *)
(* ================================================================== *)

(** ** C1: playback scheduling

    C1, as the code has it.  The controller keeps no timeline cursor:
    [_playAssistant] calls [src.start()] with no time, so every decodable,
    non-empty [assistant_audio] chunk is started at the device time at which
    its message is handled.  Over any sequence of events, the sources started
    are exactly those of the chunks, one per chunk and in arrival order; each
    starts at its own arrival time (hence never in the past) and holds the
    decoded samples at 24 kHz.  Nothing delays a chunk behind its
    predecessor. *)
Theorem C1_chunks_start_on_arrival (evs : list Event) (st : State) :
  started (run evs st) = started st ++ flat_map plays evs
  /\ (forall now audio c x xs,
        b64ToPCM audio = inl c -> float32 c = x :: xs ->
        plays (EAssistantAudio now audio)
        = [{| src_start := now; src_buffer := float32 c; src_rate := 24000 |}])
  /\ (forall ev s, In s (plays ev) ->
        exists now audio, ev = EAssistantAudio now audio /\ src_start s = now).
Proof.
  split; [apply run_started |]. split.
  - intros now audio c x xs Hc Hf. cbn [plays]. rewrite Hc, Hf.
    unfold b64ToPCM in Hc.
    destruct (Base64.atob audio); [| discriminate].
    destruct (Int16Array_of_buffer _); [| discriminate].
    injection Hc as <-. reflexivity.
  - apply plays_start.
Qed.

(** The theorem above on two chunks of one sample each that arrive at device
    times 3 and 5. *)
Lemma C1_chunks_start_on_arrival_witness :
  b64ToPCM "AAA=" = inl {| float32 := [S754_zero false]; sampleRate := 24000 |}
  /\ map src_start
       (started (run [EAssistantAudio 3 "AAA="; EAssistantAudio 5 "AAA="]
                     new_VoiceController))
     = [3%Q; 5%Q].
Proof.
  split; [reflexivity |].
  destruct (C1_chunks_start_on_arrival
              [EAssistantAudio 3 "AAA="; EAssistantAudio 5 "AAA="] new_VoiceController)
    as (Hrun & Hplay & _).
  rewrite Hrun. cbn [flat_map].
  rewrite (Hplay 3%Q "AAA="%string _ _ _ eq_refl eq_refl).
  rewrite (Hplay 5%Q "AAA="%string _ _ _ eq_refl eq_refl).
  reflexivity.
Defined.

(** C1 as stated fails.  A chunk of 200 ms and a chunk of 300 ms arrive in
    one burst, both at device time 0.  A cursor would start the second at
    [C1_start + 200 ms]; the code starts it at 0, together with the first,
    which it overlaps for all of its 200 ms. *)
Lemma C1_cursor_counterexample :
  let st := run [EAssistantAudio 0 chunk_200ms; EAssistantAudio 0 chunk_300ms]
                new_VoiceController in
  exists s1 s2,
    started st = [s1; s2]
    /\ (duration s1 == 200 # 1000)%Q
    /\ (src_start s2 == src_start s1)%Q
    /\ ~ (src_start s2 == src_start s1 + (200 # 1000))%Q
    /\ (src_start s2 < src_start s1 + duration s1)%Q.
Proof.
  cbv zeta.
  assert (H : map (fun s => (src_start s, Z.of_nat (List.length (src_buffer s)), src_rate s))
                (started (run [EAssistantAudio 0 chunk_200ms; EAssistantAudio 0 chunk_300ms]
                              new_VoiceController))
              = [(0%Q, 4800, 24000); (0%Q, 7200, 24000)])
    by (vm_compute; reflexivity).
  destruct (started _) as [| s1 [| s2 [| s3 l]]]; try discriminate H.
  exists s1, s2. split; [reflexivity |].
  cbn [map] in H. injection H as E1 L1 R1 E2 L2 R2.
  unfold duration. rewrite E1, E2, R1.
  replace (List.length (src_buffer s1)) with 4800%nat by (apply Nat2Z.inj; rewrite L1; reflexivity).
  split; [reflexivity |]. split; [reflexivity |]. split; [discriminate | reflexivity].
Qed.

(** ** C2: commits and transitions

    C2.  Over every sequence of events (calls of [start()], [stop()] and
    [toggle()], rendered quanta, inbound messages) and from every state, the
    number of [audio_commit] messages emitted equals the number of
    Recording-to-Idle transitions.  Step by step: an event emits one commit
    when it takes the session from Recording to Idle and none otherwise; in
    particular a [stop()] in Recording emits exactly one commit and leaves
    the session Idle.  From a new controller the commits never outnumber the
    Idle-to-Recording transitions: none is sent without a Recording phase
    before it. *)
Theorem C2_commit_count_equals_transitions (evs : list Event) (st : State) :
  commits (run evs st)
  = (commits st + transitions Recording_to_Idle (trace evs st))%nat
  /\ (forall ev st0,
        commits (fst (step ev st0))
        = (commits st0 + if Recording_to_Idle st0 (fst (step ev st0)) then 1 else 0)%nat)
  /\ (forall st0, isRecording st0 = true ->
        emitted (stop st0) = emitted st0 ++ [audio_commit]
        /\ isRecording (stop st0) = false)
  /\ (forall ev st0,
        commits (fst (step ev st0)) = S (commits st0) ->
        isRecording st0 = true /\ isRecording (fst (step ev st0)) = false)
  /\ (commits (run evs new_VoiceController)
      <= transitions Idle_to_Recording (trace evs new_VoiceController))%nat.
Proof.
  split; [apply run_commits |].
  split; [apply step_commits |].
  split; [intros st0 H; unfold stop; rewrite H; split; reflexivity |].
  split.
  - intros ev st0 H. rewrite step_commits in H. unfold Recording_to_Idle in H.
    destruct (isRecording st0), (isRecording (fst (step ev st0))); cbn in H;
      solve [split; reflexivity | lia].
  - rewrite run_commits.
    pose proof (transitions_alternate evs new_VoiceController) as [H _].
    cbn in H. cbn [commits new_VoiceController emitted filter List.length]. lia.
Qed.

(** The theorem above on two start/stop cycles with a redundant [stop()]. *)
Lemma C2_commit_count_witness :
  commits (run [EStart env_ok; EStop; EStop; EStart env_ok; EStop] new_VoiceController)
  = 2%nat
  /\ transitions Recording_to_Idle
       (trace [EStart env_ok; EStop; EStop; EStart env_ok; EStop] new_VoiceController)
     = 2%nat.
Proof.
  destruct (C2_commit_count_equals_transitions
              [EStart env_ok; EStop; EStop; EStart env_ok; EStop] new_VoiceController)
    as (H & _).
  split; [rewrite H |]; reflexivity.
Defined.

(** ** C3: one chunk per quantum

    C3, as the code has it.  The port handler emits every buffer the worklet
    posts and never looks at [isRecording]: an [audio_chunk] is sent exactly
    once per rendered quantum that carries data, from the moment a [start()]
    has built the capture graph, in Recording and in Idle alike, and none is
    sent while the graph does not exist.  So [start()], then quanta with
    data, then [stop()] on a new controller yield one [audio_chunk] per
    quantum, in order, followed by exactly one [audio_commit] (ten quanta:
    ten chunks, one commit), the session is Idle after [stop()], no chunk is
    sent before the first [start()], and a quantum rendered after [stop()]
    is sent all the same. *)
Theorem C3_chunk_per_quantum_once_graph_built
    (env : Env) (qs : list (list (list (list spec_float)))) :
  addModule_ok env = true -> getUserMedia env = Granted ->
  Forall (fun q => has_data q = true) qs ->
  let session := run (EStart env :: map EQuantum qs ++ [EStop]) new_VoiceController in
  emitted session = map (fun q => audio_chunk (posted q)) qs ++ [audio_commit]
  /\ chunks session = List.length qs
  /\ commits session = 1%nat
  /\ isRecording session = false
  /\ (forall q, has_data q = true ->
        emitted (fst (step (EQuantum q) session))
        = emitted session ++ [audio_chunk (posted q)])
  /\ (forall qs', emitted (run (map EQuantum qs') new_VoiceController) = [])
  /\ (forall st q, has_data q = true ->
        emitted (fst (step (EQuantum q) st))
        = emitted st ++ if worklet st then [audio_chunk (posted q)] else []).
Proof.
  intros Hm Hg Hq session.
  assert (Hst : fst (start env new_VoiceController)
                = set_isRecording true (set_button_active true
                    (set_worklet true (set_stream true
                       (count_getUserMedia (set_audioCtx (Some 24000) new_VoiceController)))))).
  { unfold start, _ensureAudioPipeline. cbn. rewrite Hm, Hg. reflexivity. }
  remember (fold_left (fun s q => socket_emit (audio_chunk (posted q)) s) qs
              (fst (start env new_VoiceController))) as F eqn:EF.
  assert (Hs : session = stop F).
  { unfold session. cbn [run]. rewrite run_app. cbn [run step fst].
    rewrite run_quanta_built; [rewrite EF; reflexivity | | exact Hq].
    rewrite Hst. reflexivity. }
  pose proof (fold_emit qs (fst (start env new_VoiceController))) as (E & R & W & _).
  cbv zeta in E, R, W. rewrite <- EF in E, R, W.
  rewrite Hst in E, R, W. cbn in E, R, W.
  assert (Hstop : stop F
                  = socket_emit audio_commit (set_isRecording false (set_button_active false F))).
  { unfold stop. rewrite R. reflexivity. }
  assert (Hem : emitted session = map (fun q => audio_chunk (posted q)) qs ++ [audio_commit]).
  { rewrite Hs, Hstop. cbn. rewrite E. reflexivity. }
  assert (Hw : worklet session = true).
  { rewrite Hs, Hstop. cbn. exact W. }
  split; [exact Hem |].
  split; [unfold chunks; rewrite Hem, filter_app, filter_chunks_all, length_app, length_map; cbn; lia |].
  split; [unfold commits; rewrite Hem, filter_app, filter_commits_none; reflexivity |].
  split; [rewrite Hs, Hstop; reflexivity |].
  split.
  - intros q Hd. rewrite quantum_sent by exact Hw.
    destruct q as [| [| float32 channels] rest]; try discriminate. reflexivity.
  - split; [intro qs'; rewrite run_quanta_unbuilt; reflexivity |].
    intros st q Hd. rewrite step_emitted. cbn [sends].
    destruct q as [| [| float32 channels] rest]; try discriminate. reflexivity.
Qed.

(** The theorem above on [start()], ten quanta of silence, [stop()]. *)
Lemma C3_ten_quanta_witness :
  let session := run (EStart env_ok :: map EQuantum (repeat silent_quantum 10) ++ [EStop])
                     new_VoiceController in
  chunks session = 10%nat /\ commits session = 1%nat /\ isRecording session = false
  /\ emitted session
     = repeat (audio_chunk (repeat 0 256)) 10 ++ [audio_commit].
Proof.
  assert (H : Forall (fun q => has_data q = true) (repeat silent_quantum 10))
    by (repeat constructor).
  destruct (C3_chunk_per_quantum_once_graph_built env_ok _ eq_refl eq_refl H)
    as (E & C & M & R & _).
  split; [exact C |]. split; [exact M |]. split; [exact R |].
  rewrite E. reflexivity.
Defined.

(** C3 as stated fails: after [start()] and [stop()] the session is Idle,
    and the next quantum rendered is sent as an [audio_chunk] all the same. *)
Lemma C3_chunk_while_idle_counterexample :
  let idle := run [EStart env_ok; EStop] new_VoiceController in
  isRecording idle = false
  /\ emitted idle = [audio_commit]
  /\ emitted (fst (step (EQuantum silent_quantum) idle))
     = [audio_commit; audio_chunk (repeat 0 256)].
Proof. cbv zeta. repeat split; vm_compute; reflexivity. Qed.

(** ** C4: the Frame Encoder scales and clamps

    C4.  For every quantum of binary32 samples on channel 0 of input 0,
    [process] posts one buffer: its byte length is twice the sample count,
    read as an [Int16Array] it has as many samples as the input, and each
    sample is the input scaled by 32767 and hard-clamped to the int16 range
    (in range, on the bound whenever the scaled value reaches or passes it,
    less than one away from it otherwise), so nothing wraps around;
    [encode(1.5) = 32767] and [encode(-1.5) = -32768]. *)
Theorem C4_frame_encoder_scales_and_clamps
    (float32 : list spec_float) (channels : list (list spec_float))
    (inputs : list (list (list spec_float))) :
  Forall valid32 float32 ->
  exists buffer : ArrayBuffer,
    process ((float32 :: channels) :: inputs) = (true, Some buffer)
    /\ List.length buffer = (2 * List.length float32)%nat
    /\ Int16Array_of_buffer buffer = Some (map encode_sample float32)
    /\ List.length (map encode_sample float32) = List.length float32
    /\ Forall (fun x => scaled_and_clamped x (encode_sample x)) float32
    /\ encode_sample f32_1_5 = 32767
    /\ encode_sample (SFopp f32_1_5) = -32768.
Proof.
  intro Hvalid. exists (Int16Array_buffer (map encode_sample float32)).
  split; [reflexivity |].
  split; [rewrite Int16Array_byteLength, length_map; reflexivity |].
  split.
  { apply Int16Array_view. apply Forall_map.
    apply Forall_forall. intros x _. apply encode_sample_range. }
  split; [apply length_map |].
  split.
  { apply Forall_forall. intros x Hx. apply encode_sample_clamps.
    rewrite Forall_forall in Hvalid. apply Hvalid, Hx. }
  split; reflexivity.
Qed.

(** The theorem above on the quantum [1.5, -1.5, 0.5]. *)
Lemma C4_frame_encoder_witness :
  Forall valid32 [f32_1_5; SFopp f32_1_5; f32_half] /\
  exists buffer : ArrayBuffer,
    process [[[f32_1_5; SFopp f32_1_5; f32_half]]] = (true, Some buffer)
    /\ List.length buffer = 6%nat
    /\ Int16Array_of_buffer buffer = Some [32767; -32768; 16383].
Proof.
  assert (H : Forall valid32 [f32_1_5; SFopp f32_1_5; f32_half])
    by (repeat constructor).
  split; [exact H |].
  destruct (C4_frame_encoder_scales_and_clamps _ [] [] H) as (b & Hp & Hl & Hv & _).
  exists b. split; [exact Hp |]. split; [exact Hl | exact Hv].
Defined.

(** ** C5: malformed payloads

    C5, as the code has it.  The handler of [assistant_audio] has no error
    handling and logs nothing: when the payload does not decode ([atob]
    throws, or the byte length is odd), the exception leaves the handler
    before anything is scheduled.  No source is started, the controller and
    its surroundings are exactly as before (there is no cursor to move, and
    the console is untouched), and the following events are processed as if
    the malformed message had not arrived.  ["not-base64!!"] is such a
    payload. *)
Theorem C5_malformed_payload_throws (now : Q) (audio : string) (e : Exception)
    (st : State) :
  b64ToPCM audio = inr e ->
  step (EAssistantAudio now audio) st = (st, Threw e)
  /\ plays (EAssistantAudio now audio) = []
  /\ (forall evs, run (EAssistantAudio now audio :: evs) st = run evs st)
  /\ b64ToPCM "not-base64!!" = inr InvalidCharacterError.
Proof.
  intro H. cbn [step run plays]. unfold on_assistant_audio. rewrite H.
  repeat split; reflexivity.
Qed.

(** The theorem above on the payload ["not-base64!!"]. *)
Lemma C5_malformed_payload_witness :
  b64ToPCM "not-base64!!" = inr InvalidCharacterError
  /\ step (EAssistantAudio 0 "not-base64!!") new_VoiceController
     = (new_VoiceController, Threw InvalidCharacterError).
Proof.
  split; [reflexivity |].
  apply (C5_malformed_payload_throws 0 "not-base64!!" InvalidCharacterError
           new_VoiceController eq_refl).
Defined.

(** C5 as stated fails: handling ["not-base64!!"] logs no warning, the
    console stays empty. *)
Lemma C5_no_warning_counterexample :
  let st := fst (step (EAssistantAudio 0 "not-base64!!") new_VoiceController) in
  ~ (exists msg, In (console_warn msg) (console st))
  /\ console st = [].
Proof.
  cbv zeta. split; [| reflexivity].
  intros [msg H]. exact H.
Qed.

(** ** C6: idempotence of start() and stop()

    C6, as the code has it.  [start()] in Recording and [stop()] in Idle are
    no-ops.  From Idle, two consecutive [start()] calls of which the first
    finds the audio context already there, or loads the module and is granted
    the microphone, cause exactly one Idle-to-Recording transition, the
    second call changing nothing; the device is acquired only while the
    graph is first built, so they make one acquisition attempt when the
    context did not exist yet and none when it did.  From Recording, two
    consecutive [stop()] calls cause exactly one Recording-to-Idle
    transition and one commit, the second call changing nothing. *)
Theorem C6_start_stop_idempotent (st : State) (env1 env2 : Env) :
  (isRecording st = true -> start env1 st = (st, Returned))
  /\ (isRecording st = false -> stop st = st)
  /\ (isRecording st = false ->
      audioCtx st <> None \/ (addModule_ok env1 = true /\ getUserMedia env1 = Granted) ->
      transitions Idle_to_Recording (trace [EStart env1; EStart env2] st) = 1%nat
      /\ run [EStart env1; EStart env2] st = run [EStart env1] st
      /\ getUserMedia_calls (run [EStart env1; EStart env2] st)
         = (getUserMedia_calls st + match audioCtx st with None => 1 | Some _ => 0 end)%nat)
  /\ (isRecording st = true ->
      transitions Recording_to_Idle (trace [EStop; EStop] st) = 1%nat
      /\ run [EStop; EStop] st = run [EStop] st
      /\ commits (run [EStop; EStop] st) = S (commits st)).
Proof.
  split; [apply start_noop |]. split; [apply stop_noop |]. split.
  - intros Hidle Hcase. cbn [trace run step transitions].
    destruct (audioCtx st) as [rate |] eqn:Hc.
    + rewrite (start_built env1 st rate Hidle Hc). cbn [fst].
      rewrite start_noop by reflexivity. cbn [fst].
      unfold Idle_to_Recording. rewrite Hidle. cbn. repeat split. lia.
    + destruct Hcase as [Hn | [Hm Hg]]; [congruence |].
      rewrite (start_first env1 st Hidle Hc Hm Hg). cbn [fst].
      rewrite start_noop by reflexivity. cbn [fst].
      unfold Idle_to_Recording. rewrite Hidle. cbn. repeat split. lia.
  - intro Hrec. cbn [trace run step transitions fst].
    assert (Hstop : stop st
                    = socket_emit audio_commit (set_isRecording false (set_button_active false st))).
    { unfold stop. rewrite Hrec. reflexivity. }
    rewrite Hstop. rewrite (stop_noop (socket_emit _ _)) by reflexivity.
    unfold Recording_to_Idle. rewrite Hrec. cbn.
    repeat split. unfold commits. cbn. rewrite filter_app, length_app. cbn. lia.
Qed.

(** The theorem above on a new controller, then on the Recording state it
    reaches. *)
Lemma C6_start_stop_idempotent_witness :
  transitions Idle_to_Recording (trace [EStart env_ok; EStart env_ok] new_VoiceController) = 1%nat
  /\ getUserMedia_calls (run [EStart env_ok; EStart env_ok] new_VoiceController) = 1%nat
  /\ transitions Recording_to_Idle
       (trace [EStop; EStop] (run [EStart env_ok] new_VoiceController)) = 1%nat.
Proof.
  destruct (C6_start_stop_idempotent new_VoiceController env_ok env_ok)
    as (_ & _ & Hstart & _).
  destruct (Hstart eq_refl (or_intror (conj eq_refl eq_refl))) as (T & _ & G).
  destruct (C6_start_stop_idempotent (run [EStart env_ok] new_VoiceController) env_ok env_ok)
    as (_ & _ & _ & Hstop).
  destruct (Hstop eq_refl) as (T' & _).
  split; [exact T |]. split; [exact G | exact T'].
Defined.

(** C6 as stated fails.  In the Idle state reached by [start()] and
    [stop()], two consecutive [start()] calls cause one transition but no
    device-acquisition attempt; and from any Recording state they cause no
    transition at all. *)
Lemma C6_no_second_acquisition_counterexample :
  let idle := run [EStart env_ok; EStop] new_VoiceController in
  isRecording idle = false
  /\ transitions Idle_to_Recording (trace [EStart env_ok; EStart env_ok] idle) = 1%nat
  /\ getUserMedia_calls (run [EStart env_ok; EStart env_ok] idle)
     = getUserMedia_calls idle
  /\ (forall st : State, isRecording st = true ->
        transitions Idle_to_Recording (trace [EStart env_ok; EStart env_ok] st) = 0%nat).
Proof.
  cbv zeta. split; [reflexivity |]. split; [reflexivity |]. split; [reflexivity |].
  intros st H. cbn [trace run step transitions].
  rewrite !start_noop by assumption. cbn [fst].
  unfold Idle_to_Recording. rewrite H. reflexivity.
Qed.

(** ** C7: device acquisition fails

    C7.  When [start()] attempts to acquire the device (the session is Idle
    and no audio context exists yet, the module loads) and [getUserMedia]
    refuses with a device error, the call fails with that error, which
    reaches the caller as the rejection of the promise; the session stays
    Idle, the mic button keeps its appearance (inactive in every Idle state a
    new controller reaches), nothing is emitted, and the device was asked
    exactly once: there is no retry. *)
Theorem C7_device_failure_leaves_idle (env : Env) (st : State) (e : Exception) :
  isRecording st = false -> audioCtx st = None ->
  addModule_ok env = true -> getUserMedia env = Refused e -> DeviceUnavailable e = true ->
  exists st',
    start env st = (st', Threw e)
    /\ isRecording st' = false
    /\ button_active st' = button_active st
    /\ (forall evs, st = run evs new_VoiceController -> button_active st' = false)
    /\ worklet st' = worklet st
    /\ emitted st' = emitted st
    /\ getUserMedia_calls st' = S (getUserMedia_calls st).
Proof.
  intros H Hc Hm Hg _. eexists. split; [apply start_refused; eassumption |].
  cbn. split; [exact H |]. split; [reflexivity |]. split; [| repeat split].
  intros evs ->. rewrite run_button_follows by reflexivity. exact H.
Qed.

(** The theorem above on a new controller whose user denies the microphone. *)
Lemma C7_device_failure_witness :
  exists st',
    start env_denied new_VoiceController = (st', Threw NotAllowedError)
    /\ isRecording st' = false
    /\ button_active st' = false
    /\ getUserMedia_calls st' = 1%nat.
Proof.
  destruct (C7_device_failure_leaves_idle env_denied new_VoiceController NotAllowedError
              eq_refl eq_refl eq_refl eq_refl eq_refl)
    as (st' & Hs & Hr & Hb & _ & _ & _ & Hg).
  exists st'. split; [exact Hs |]. split; [exact Hr |]. split; [exact Hb | exact Hg].
Defined.

(** ** C8: the worklet module fails to load

    C8, evaluated on the code: on a new controller, a [start()] during which
    [addModule] fails logs the error and returns normally from
    [_ensureAudioPipeline], after which [start()] goes on: the call
    resolves, the session is Recording and the mic button active, although no
    worklet exists, the device was never asked for, and no quantum will ever
    be sent. *)
Theorem C8_module_failure_still_records :
  let st := fst (start env_module_fails new_VoiceController) in
  snd (start env_module_fails new_VoiceController) = Returned
  /\ isRecording st = true
  /\ button_active st = true
  /\ worklet st = false
  /\ getUserMedia_calls st = 0%nat
  /\ console st = [console_error "Failed to load AudioWorklet:"]
  /\ (forall qs, emitted (run (map EQuantum qs) st) = []).
Proof.
  cbv zeta. repeat split.
  intro qs. induction qs as [| q qs IH]; [reflexivity |].
  cbn [map run]. exact IH.
Qed.

(** ** C9: decoding then encoding

    C9, as the code has it.  For every int16 value [v] with
    [-32767 <= v <= 32767], decoding ([v / 32767] rounded to binary32) and
    then encoding (scaling by 32767, clamping, truncating) returns [v] or its
    neighbour one step nearer to zero, never anything else; it returns [v]
    itself at 0, 32767 and -32767, and the neighbour 0 at 1 and at -1.  For
    [v = -32768] the decoded sample is strictly below -1. *)
Theorem C9_roundtrip_within_one_step (v : Z) :
  -32767 <= v <= 32767 ->
  (0 <= v -> v - 1 <= roundtrip v <= v)
  /\ (v <= 0 -> v <= roundtrip v <= v + 1)
  /\ roundtrip 0 = 0
  /\ roundtrip 32767 = 32767
  /\ roundtrip (-32767) = -32767
  /\ roundtrip 1 = 0
  /\ roundtrip (-1) = 0
  /\ (SF2Q (decode_sample (-32768)) < -1)%Q.
Proof.
  intro Hv.
  assert (H : roundtrip_near v = true)
    by (apply (all_bits_spec 16 roundtrip_near (-32768) roundtrip_near_all); cbn; lia).
  unfold roundtrip_near in H. rewrite <- roundtrip_fast in H by lia.
  destruct (Z.eqb_spec v (-32768)); [lia |].
  split; [| split].
  - intro H0. destruct (Z.leb_spec 0 v) as [Hs | Hs]; [| lia].
    apply andb_true_iff in H. destruct H as [Ha Hb].
    apply Z.leb_le in Ha, Hb. lia.
  - intro H0. destruct (Z.leb_spec 0 v) as [Hs | Hs].
    + assert (v = 0) by lia. subst v. vm_compute. split; discriminate.
    + apply andb_true_iff in H. destruct H as [Ha Hb].
      apply Z.leb_le in Ha, Hb. lia.
  - repeat split; vm_compute; reflexivity.
Qed.

(** The theorem above at [v = 1]. *)
Lemma C9_roundtrip_witness :
  -32767 <= 1 <= 32767 /\ 0 <= roundtrip 1 <= 1.
Proof.
  split; [lia |].
  destruct (C9_roundtrip_within_one_step 1 ltac:(lia)) as [H _].
  apply H. lia.
Defined.

(** C9 as stated fails: the sample 1 is decoded to the binary32 number just
    below [1 / 32767] and comes back as 0. *)
Lemma C9_roundtrip_counterexample :
  ~ (forall v, -32767 <= v <= 32767 -> roundtrip v = v).
Proof.
  intro H. specialize (H 1 ltac:(lia)). vm_compute in H. discriminate.
Qed.

(** ** C10: the rounding rule

    C10.  For every binary32 sample with a value, the stored int16 is the
    value scaled by 32767, clamped to the int16 range and truncated toward
    zero, computed exactly ([spec_encode] on the rational value of the
    sample); an infinite sample is stored as the bound on its side and NaN as
    0.  0.5 encodes to 16383 and -0.5 to -16383. *)
Theorem C10_encoder_truncates_toward_zero (x : spec_float) :
  valid32 x ->
  match x with
  | S754_nan => encode_sample x = 0
  | S754_infinity s => encode_sample x = if s then -32768 else 32767
  | _ => encode_sample x = spec_encode (SF2Q x)
  end
  /\ encode_sample f32_half = 16383
  /\ encode_sample (SFopp f32_half) = -16383.
Proof.
  intro H. split; [| split; reflexivity].
  destruct x as [s | s | | s m e].
  - rewrite encode_sample_zero. reflexivity.
  - destruct s; reflexivity.
  - reflexivity.
  - apply encode_sample_refines, H.
Qed.

(** The theorem above at the sample 0.5. *)
Lemma C10_encoder_truncates_witness :
  valid32 f32_half /\ encode_sample f32_half = spec_encode (1 # 2) .
Proof.
  split; [reflexivity |].
  destruct (C10_encoder_truncates_toward_zero f32_half eq_refl) as [H _].
  rewrite H. reflexivity.
Defined.

(* ================================================================== *)
(** * Further properties *)
(* ================================================================== *)

Import Samples Lifetime NoButton.

(* ------------------------------------------------------------------ *)
(** ** The encoder as a function of the sample's value *)
(* ------------------------------------------------------------------ *)

Section EncoderOrder.

Lemma encode_sample_spec (x : spec_float) :
  valid32 x -> has_value x = true -> encode_sample x = spec_encode (SF2Q x).
Proof.
  intros Hv Hx. destruct x as [s | s | | s m e]; try discriminate.
  - rewrite encode_sample_zero. reflexivity.
  - apply encode_sample_refines, Hv.
Qed.

Lemma Qle_bool_false (a b : Q) : Qle_bool a b = false -> (b < a)%Q.
Proof.
  intro H. apply Qnot_le_lt. intro Hle. apply Qle_bool_iff in Hle. congruence.
Qed.

Lemma Qclamp16_cases (v : Q) :
  ((v <= 32767)%Q /\ (-32768 <= v)%Q /\ Qclamp16 v = v)
  \/ ((v < -32768)%Q /\ Qclamp16 v = (-32768)%Q)
  \/ ((32767 < v)%Q /\ Qclamp16 v = 32767%Q).
Proof.
  unfold Qclamp16.
  destruct (Qle_bool v 32767) eqn:Hhi.
  - apply Qle_bool_iff in Hhi.
    destruct (Qle_bool (-32768) v) eqn:Hlo.
    + apply Qle_bool_iff in Hlo. left. repeat split; assumption.
    + apply Qle_bool_false in Hlo. right. left. split; [assumption | reflexivity].
  - apply Qle_bool_false in Hhi. right. right. split; [assumption | reflexivity].
Qed.

Lemma Qclamp16_monotone (a b : Q) : (a <= b)%Q -> (Qclamp16 a <= Qclamp16 b)%Q.
Proof.
  intro H.
  destruct (Qclamp16_cases a) as [(A1 & A2 & ->) | [(A1 & ->) | (A1 & ->)]];
    destruct (Qclamp16_cases b) as [(B1 & B2 & ->) | [(B1 & ->) | (B1 & ->)]]; lra.
Qed.

Lemma Qtruncate_monotone (a b : Q) : (a <= b)%Q -> Qtruncate a <= Qtruncate b.
Proof.
  intro H. unfold Qtruncate.
  destruct (Qle_bool 0 a) eqn:Ha; destruct (Qle_bool 0 b) eqn:Hb.
  - apply Qfloor_resp_le, H.
  - apply Qle_bool_iff in Ha. apply Qle_bool_false in Hb. lra.
  - apply Qle_bool_false in Ha. apply Qle_bool_iff in Hb.
    apply Z.le_trans with 0.
    + change 0 with (Qceiling 0). apply Qceiling_resp_le. lra.
    + change 0 with (Qfloor 0). apply Qfloor_resp_le, Hb.
  - apply Qceiling_resp_le, H.
Qed.

Lemma spec_encode_monotone (a b : Q) : (a <= b)%Q -> spec_encode a <= spec_encode b.
Proof.
  intro H. unfold spec_encode. apply Qtruncate_monotone, Qclamp16_monotone. lra.
Qed.

End EncoderOrder.

(** The encoder is order preserving: a larger sample never encodes to a
    smaller int16. *)
Theorem encode_sample_monotone (x y : spec_float) :
  valid32 x -> valid32 y -> has_value x = true -> has_value y = true ->
  (SF2Q x <= SF2Q y)%Q ->
  encode_sample x <= encode_sample y.
Proof.
  intros Hx Hy Vx Vy H.
  rewrite (encode_sample_spec x Hx Vx), (encode_sample_spec y Hy Vy).
  apply spec_encode_monotone, H.
Qed.

(** The theorem above at the samples -0.5 and 0.5. *)
Lemma encode_sample_monotone_witness :
  encode_sample (SFopp f32_half) <= encode_sample f32_half.
Proof.
  apply (encode_sample_monotone (SFopp f32_half) f32_half);
    try reflexivity. vm_compute. discriminate.
Defined.

Section EncoderShape.

Lemma Qfloor_unique (v : Q) (z : Z) :
  (inject_Z z <= v)%Q -> (v < inject_Z z + 1)%Q -> Qfloor v = z.
Proof.
  intros H1 H2.
  pose proof (Qfloor_le v) as F1. pose proof (Qlt_floor v) as F2.
  rewrite inject_Z_plus in F2. change (inject_Z 1) with 1%Q in F2.
  assert (A : (inject_Z (Qfloor v) < inject_Z (z + 1))%Q)
    by (rewrite inject_Z_plus; change (inject_Z 1) with 1%Q; lra).
  assert (B : (inject_Z z < inject_Z (Qfloor v + 1))%Q)
    by (rewrite inject_Z_plus; change (inject_Z 1) with 1%Q; lra).
  rewrite <- Zlt_Qlt in A, B. lia.
Qed.

Lemma Qtruncate_opp (v : Q) : Qtruncate (- v) = - Qtruncate v.
Proof.
  unfold Qtruncate.
  destruct (Qle_bool 0 v) eqn:Hv; destruct (Qle_bool 0 (- v)) eqn:Hn.
  - apply Qle_bool_iff in Hv, Hn.
    assert (E : (v == 0)%Q) by lra.
    rewrite (Qfloor_comp _ _ E).
    assert (E' : (- v == 0)%Q) by lra.
    rewrite (Qfloor_comp _ _ E'). reflexivity.
  - unfold Qceiling. rewrite (Qfloor_comp (- - v) v) by lra. lia.
  - unfold Qceiling. lia.
  - apply Qle_bool_false in Hv, Hn. lra.
Qed.

Lemma Qtruncate_zero_iff (v : Q) : Qtruncate v = 0 <-> (-1 < v /\ v < 1)%Q.
Proof.
  pose proof (Qtruncate_near v) as [N1 N2].
  split.
  - intro H. rewrite H in N1, N2. change (inject_Z 0) with 0%Q in *. lra.
  - intros [H1 H2]. unfold Qtruncate.
    destruct (Qle_bool 0 v) eqn:Hv.
    + apply Qle_bool_iff in Hv.
      apply Qfloor_unique; change (inject_Z 0) with 0%Q; lra.
    + apply Qle_bool_false in Hv. unfold Qceiling.
      rewrite (Qfloor_unique (- v) 0);
        [reflexivity | change (inject_Z 0) with 0%Q; lra ..].
Qed.

Lemma valid32_opp (x : spec_float) : valid32 x -> valid32 (SFopp x).
Proof. destruct x; exact (fun H => H). Qed.

Lemma SF2Q_opp (x : spec_float) : (SF2Q (SFopp x) == - SF2Q x)%Q.
Proof.
  destruct x as [s | s | | s m e]; try reflexivity.
  unfold SF2Q, SFopp.
  destruct s; cbn [negb cond_Zopp Z.opp]; unfold Qeq, Qopp, Qmult, inject_Z;
    cbn [Qnum Qden]; lia.
Qed.

Lemma spec_encode_comp (a b : Q) : (a == b)%Q -> spec_encode a = spec_encode b.
Proof.
  intro H. unfold spec_encode. apply Qtruncate_comp, Qclamp16_comp.
  rewrite H. reflexivity.
Qed.

Lemma encode_sample_nominal (x : spec_float) :
  valid32 x -> has_value x = true -> (-1 <= SF2Q x)%Q -> (SF2Q x <= 1)%Q ->
  encode_sample x = Qtruncate (SF2Q x * 32767)
  /\ -32767 <= encode_sample x <= 32767.
Proof.
  intros Hv Hx H1 H2. rewrite (encode_sample_spec x Hv Hx). unfold spec_encode.
  assert (C1 : Qclamp16 (SF2Q x * 32767) = (SF2Q x * 32767)%Q).
  { destruct (Qclamp16_cases (SF2Q x * 32767)) as [(_ & _ & E) | [(A & _) | (A & _)]];
      [exact E | lra | lra]. }
  rewrite C1. split; [reflexivity |].
  assert (L : Qtruncate (-32767) <= Qtruncate (SF2Q x * 32767))
    by (apply Qtruncate_monotone; lra).
  assert (U : Qtruncate (SF2Q x * 32767) <= Qtruncate 32767)
    by (apply Qtruncate_monotone; lra).
  change (Qtruncate (-32767)) with (-32767) in L.
  change (Qtruncate 32767) with 32767 in U. lia.
Qed.

End EncoderShape.

(** Within the nominal range the encoder is odd and never yields -32768. *)
Theorem encode_sample_odd_in_range (x : spec_float) :
  valid32 x -> has_value x = true -> (-1 <= SF2Q x)%Q -> (SF2Q x <= 1)%Q ->
  encode_sample (SFopp x) = - encode_sample x
  /\ -32767 <= encode_sample x <= 32767.
Proof.
  intros Hv Hx H1 H2.
  assert (Hx' : has_value (SFopp x) = true) by (destruct x; exact Hx).
  assert (H1' : (-1 <= SF2Q (SFopp x))%Q) by (rewrite SF2Q_opp; lra).
  assert (H2' : (SF2Q (SFopp x) <= 1)%Q) by (rewrite SF2Q_opp; lra).
  destruct (encode_sample_nominal x Hv Hx H1 H2) as [E R].
  destruct (encode_sample_nominal _ (valid32_opp x Hv) Hx' H1' H2') as [E' _].
  split; [| exact R].
  rewrite E', E, <- Qtruncate_opp. apply Qtruncate_comp.
  rewrite SF2Q_opp. ring.
Qed.

(** The theorem above at the sample 0.5. *)
Lemma encode_sample_odd_in_range_witness :
  encode_sample (SFopp f32_half) = - encode_sample f32_half.
Proof.
  apply (encode_sample_odd_in_range f32_half); try reflexivity;
    vm_compute; discriminate.
Defined.

(** Truncation leaves a dead zone around zero. *)
Theorem encode_sample_dead_zone (x : spec_float) :
  valid32 x -> has_value x = true ->
  (encode_sample x = 0 <-> (-1 < SF2Q x * 32767 /\ SF2Q x * 32767 < 1)%Q).
Proof.
  intros Hv Hx. rewrite (encode_sample_spec x Hv Hx). unfold spec_encode.
  destruct (Qclamp16_cases (SF2Q x * 32767)) as [(A & B & ->) | [(A & ->) | (A & ->)]].
  - apply Qtruncate_zero_iff.
  - change (Qtruncate (-32768)) with (-32768). split; [discriminate | lra].
  - change (Qtruncate 32767) with 32767. split; [discriminate | lra].
Qed.

(** The theorem above at the sample [2^-16], below one step of 1/32767. *)
Lemma encode_sample_dead_zone_witness :
  encode_sample (S754_finite false 8388608 (-39)) = 0.
Proof.
  apply (encode_sample_dead_zone (S754_finite false 8388608 (-39)));
    try reflexivity. split; vm_compute; reflexivity.
Defined.

(** Full scale is reached exactly by the samples at or beyond the bounds. *)
Theorem encode_sample_full_scale (x : spec_float) :
  valid32 x -> has_value x = true ->
  (encode_sample x = 32767 <-> (32767 <= SF2Q x * 32767)%Q)
  /\ (encode_sample x = -32768 <-> (SF2Q x * 32767 <= -32768)%Q).
Proof.
  intros Hv Hx. rewrite (encode_sample_spec x Hv Hx).
  pose proof (spec_encode_regimes (SF2Q x)) as (R1 & R2 & R3). cbv zeta in R1, R2, R3.
  split; split; try assumption; intro H.
  - destruct (Qlt_le_dec (SF2Q x * 32767) 32767) as [Hlt | Hle]; [| exact Hle].
    exfalso. unfold spec_encode in H.
    destruct (Qclamp16_cases (SF2Q x * 32767)) as [(A & B & E) | [(A & E) | (A & E)]];
      rewrite E in H.
    + unfold Qtruncate in H.
      destruct (Qle_bool 0 (SF2Q x * 32767)) eqn:Hs.
      * pose proof (Qfloor_le (SF2Q x * 32767)) as F. rewrite H in F.
        change (inject_Z 32767) with 32767%Q in F. lra.
      * apply Qle_bool_false in Hs.
        pose proof (Qceiling_lt (SF2Q x * 32767)) as F. rewrite H in F.
        change (inject_Z (32767 - 1)) with 32766%Q in F. lra.
    + discriminate H.
    + lra.
  - destruct (Qlt_le_dec (-32768) (SF2Q x * 32767)) as [Hlt | Hle]; [| exact Hle].
    exfalso. unfold spec_encode in H.
    destruct (Qclamp16_cases (SF2Q x * 32767)) as [(A & B & E) | [(A & E) | (A & E)]];
      rewrite E in H.
    + unfold Qtruncate in H.
      destruct (Qle_bool 0 (SF2Q x * 32767)) eqn:Hs.
      * apply Qle_bool_iff in Hs.
        pose proof (Qlt_floor (SF2Q x * 32767)) as F. rewrite H in F.
        change (inject_Z (-32768 + 1)) with (-32767)%Q in F. lra.
      * pose proof (Qle_ceiling (SF2Q x * 32767)) as F. rewrite H in F.
        change (inject_Z (-32768)) with (-32768)%Q in F. lra.
    + lra.
    + discriminate H.
Qed.

(** The theorem above at the sample 1. *)
Lemma encode_sample_full_scale_witness :
  encode_sample f32_one = 32767.
Proof.
  apply (encode_sample_full_scale f32_one); try reflexivity.
  vm_compute. discriminate.
Defined.

(* ------------------------------------------------------------------ *)
(** ** The decoder of [b64ToPCM] *)
(* ------------------------------------------------------------------ *)

Section Decoder.

Lemma decode_check_all : all_bits 16 decode_check (-32768) = true.
Proof. vm_compute. reflexivity. Qed.

Lemma decode_check_int16 (v : Z) : -32768 <= v <= 32767 -> decode_check v = true.
Proof.
  intro H. apply (all_bits_spec 16 decode_check (-32768) decode_check_all). cbn. lia.
Qed.

(** The properties of a decoded sample, from the check. *)
Lemma decode_sample_props (v : Z) : -32768 <= v <= 32767 ->
  valid32 (decode_sample v)
  /\ has_value (decode_sample v) = true
  /\ (Qabs (SF2Q (decode_sample v) * 32767 - inject_Z v)
      <= Qabs (inject_Z v) * (1 # 16777216))%Q
  /\ (- (32769 # 32768) <= SF2Q (decode_sample v))%Q
  /\ (SF2Q (decode_sample v) <= 1)%Q.
Proof.
  intro Hv. pose proof (decode_check_int16 v Hv) as H.
  rewrite (decode_sample_fast v Hv). unfold decode_check in H.
  destruct (decode_fast v) as [s | s | | s m e]; try discriminate H.
  - apply andb_true_iff in H. destruct H as [H0 Hs].
    apply Z.eqb_eq in H0. subst v. destruct s; [discriminate |].
    repeat split; try reflexivity; vm_compute; discriminate.
  - repeat (apply andb_true_iff in H; let H' := fresh "C" in destruct H as [H H']).
    rename H into Cv.
    destruct e as [| p | p]; try discriminate C2.
    split; [unfold valid32, valid_binary, bounded; rewrite Cv, C3; reflexivity |].
    split; [reflexivity |].
    apply Z.leb_le in C0. apply eqb_prop in C1.
    change (- Zneg p) with (Zpos p) in *.
    assert (HK : Zpos (2 ^ p) = 2 ^ Zpos p) by apply Pos2Z.inj_pow.
    assert (HKpos : 0 < 2 ^ Zpos p) by (apply Z.pow_pos_nonneg; lia).
    remember (2 ^ Zpos p) as K eqn:EK.
    unfold SF2Q, Qpow2.
    split; [| split].
    + apply Qabs_Qle_condition.
      unfold Qle, Qminus, Qplus, Qmult, Qopp, Qabs, inject_Z. cbn [Qnum Qden].
      rewrite ?Pos.mul_1_r, ?Pos.mul_1_l, ?Pos2Z.inj_mul, HK.
      destruct s; cbn [cond_Zopp] in *.
      * destruct (Z.ltb_spec v 0); [| discriminate]. split; nia.
      * destruct (Z.ltb_spec v 0); [discriminate |]. split; nia.
    + unfold Qle, Qmult, Qopp, inject_Z. cbn [Qnum Qden].
      rewrite ?Pos.mul_1_r, ?Pos.mul_1_l, HK.
      destruct s; cbn [cond_Zopp] in *; [apply Z.leb_le in C | ]; lia.
    + unfold Qle, Qmult, Qopp, inject_Z. cbn [Qnum Qden].
      rewrite ?Pos.mul_1_r, ?Pos.mul_1_l, HK.
      destruct s; cbn [cond_Zopp] in *; [| apply Z.leb_le in C]; lia.
Qed.

End Decoder.

Section DecoderFacts.

Lemma decode_sample_close (v : Z) : -32768 <= v <= 32767 ->
  (inject_Z v - (1 # 512) <= SF2Q (decode_sample v) * 32767)%Q
  /\ (SF2Q (decode_sample v) * 32767 <= inject_Z v + (1 # 512))%Q.
Proof.
  intro Hv. destruct (decode_sample_props v Hv) as (_ & _ & A & _).
  apply Qabs_Qle_condition in A.
  change (Qabs (inject_Z v)) with (inject_Z (Z.abs v)) in A.
  assert (B : (inject_Z (Z.abs v) <= inject_Z 32768)%Q) by (rewrite <- Zle_Qle; lia).
  change (inject_Z 32768) with 32768%Q in B. lra.
Qed.

Lemma charCode_byte (c : ascii) : 0 <= Base64.charCode c < 256.
Proof.
  unfold Base64.charCode. pose proof (N_ascii_bounded c). lia.
Qed.

Lemma int16_of_bytes_range (lo hi : Z) : 0 <= lo < 256 -> 0 <= hi < 256 ->
  -32768 <= int16_of_bytes lo hi <= 32767.
Proof.
  intros Hl Hh. unfold int16_of_bytes.
  destruct (Z.leb_spec 32768 (lo + 256 * hi)); lia.
Qed.

Lemma Int16Array_of_buffer_range (l : list Z) : forall b,
  Forall (fun x => 0 <= x < 256) b ->
  Int16Array_of_buffer b = Some l ->
  Forall (fun v => -32768 <= v <= 32767) l /\ List.length b = (2 * List.length l)%nat.
Proof.
  induction l as [| v l IH]; intros b Hb H.
  - destruct b as [| lo [| hi rest]]; cbn in H; try discriminate.
    + split; [constructor | reflexivity].
    + destruct (Int16Array_of_buffer rest); discriminate.
  - destruct b as [| lo [| hi rest]]; cbn in H; try discriminate.
    destruct (Int16Array_of_buffer rest) as [l' |] eqn:E; [| discriminate].
    injection H as <- <-.
    inversion Hb as [| ? ? Hlo Hb']; subst. inversion Hb' as [| ? ? Hhi Hrest]; subst.
    destruct (IH rest Hrest E) as [F L].
    split; [constructor; [apply int16_of_bytes_range; assumption | exact F] |].
    cbn [List.length]. lia.
Qed.

(** Where a chunk returned by [b64ToPCM] comes from: the int16 view of the
    bytes of the decoded string. *)
Lemma b64ToPCM_inl (audio : string) (c : PlaybackChunk) :
  b64ToPCM audio = inl c ->
  exists str l,
    Base64.atob audio = Some str
    /\ Int16Array_of_buffer (Uint8Array_from str Base64.charCode) = Some l
    /\ Forall (fun v => -32768 <= v <= 32767) l
    /\ String.length str = (2 * List.length l)%nat
    /\ c = {| float32 := map decode_sample l; sampleRate := 24000 |}.
Proof.
  unfold b64ToPCM. intro H.
  destruct (Base64.atob audio) as [str |] eqn:Ea; [| discriminate].
  destruct (Int16Array_of_buffer (Uint8Array_from str Base64.charCode)) as [l |] eqn:Eb;
    [| discriminate].
  injection H as <-. exists str, l.
  assert (Hb : Forall (fun x => 0 <= x < 256) (Uint8Array_from str Base64.charCode)).
  { unfold Uint8Array_from. apply Forall_map, Forall_forall. intros ch _.
    apply charCode_byte. }
  destruct (Int16Array_of_buffer_range l _ Hb Eb) as [F L].
  repeat split; try assumption; try reflexivity.
  unfold Uint8Array_from in L. rewrite length_map in L. rewrite <- L.
  clear. induction str as [| ch str IH]; cbn; [reflexivity | now rewrite IH].
Qed.

Lemma decoded_samples (l : list Z) :
  Forall (fun v => -32768 <= v <= 32767) l ->
  Forall (fun x => valid32 x /\ has_value x = true
                   /\ (- (32769 # 32768) <= SF2Q x)%Q /\ (SF2Q x <= 1)%Q)
         (map decode_sample l).
Proof.
  intro F. apply Forall_map. apply Forall_forall. intros v Hin.
  rewrite Forall_forall in F. specialize (F v Hin).
  destruct (decode_sample_props v F) as (A & B & _ & D & E).
  repeat split; assumption.
Qed.

End DecoderFacts.

(** Decoding is accurate: the decoded sample is a binary32 number within a
    relative [2^-24] of [v / 32767], between [-32769/32768] and 1. *)
Theorem decode_sample_accurate (v : Z) :
  -32768 <= v <= 32767 ->
  valid32 (decode_sample v)
  /\ has_value (decode_sample v) = true
  /\ (Qabs (SF2Q (decode_sample v) * 32767 - inject_Z v)
      <= Qabs (inject_Z v) * (1 # 16777216))%Q
  /\ (- (32769 # 32768) <= SF2Q (decode_sample v))%Q
  /\ (SF2Q (decode_sample v) <= 1)%Q
  /\ decode_sample 32767 = f32_one
  /\ decode_sample (-32768) = S754_finite true 8388864 (-23).
Proof.
  intro Hv. destruct (decode_sample_props v Hv) as (A & B & C & D & E).
  repeat split; try assumption; vm_compute; reflexivity.
Qed.

(** The theorem above at the value 12345. *)
Lemma decode_sample_accurate_witness :
  valid32 (decode_sample 12345) /\ (SF2Q (decode_sample 12345) <= 1)%Q.
Proof.
  destruct (decode_sample_accurate 12345 ltac:(lia)) as (A & _ & _ & _ & E & _).
  split; [exact A | exact E].
Defined.

(** Decoding preserves order strictly, hence loses no sample value. *)
Theorem decode_sample_strictly_monotone (v w : Z) :
  -32768 <= v -> v < w -> w <= 32767 ->
  (SF2Q (decode_sample v) < SF2Q (decode_sample w))%Q
  /\ decode_sample v <> decode_sample w.
Proof.
  intros Hv Hvw Hw.
  destruct (decode_sample_close v ltac:(lia)) as [_ V].
  destruct (decode_sample_close w ltac:(lia)) as [W _].
  assert (S : (inject_Z v + 1 <= inject_Z w)%Q).
  { change 1%Q with (inject_Z 1). rewrite <- inject_Z_plus, <- Zle_Qle. lia. }
  assert (L : (SF2Q (decode_sample v) < SF2Q (decode_sample w))%Q) by lra.
  split; [exact L |].
  intro E. rewrite E in L. apply (Qlt_irrefl _ L).
Qed.

(** The theorem above at the values 1 and 2. *)
Lemma decode_sample_strictly_monotone_witness :
  (SF2Q (decode_sample 1) < SF2Q (decode_sample 2))%Q.
Proof.
  apply (decode_sample_strictly_monotone 1 2); lia.
Defined.

(** What [b64ToPCM] returns when it returns. *)
Theorem b64ToPCM_chunk_shape (audio : string) (c : PlaybackChunk) :
  b64ToPCM audio = inl c ->
  sampleRate c = 24000
  /\ (forall str, Base64.atob audio = Some str ->
        String.length str = (2 * List.length (float32 c))%nat)
  /\ Forall (fun x => valid32 x /\ has_value x = true
                      /\ (- (32769 # 32768) <= SF2Q x)%Q /\ (SF2Q x <= 1)%Q)
            (float32 c).
Proof.
  intro H. destruct (b64ToPCM_inl audio c H) as (str & l & Ea & _ & F & L & ->).
  cbn [sampleRate float32]. split; [reflexivity |]. split.
  - intros str' E'. rewrite Ea in E'. injection E' as <-.
    rewrite length_map. exact L.
  - apply decoded_samples, F.
Qed.

(** The theorem above at the payload of the bytes 00 00 ff 7f, the samples 0 and 32767. *)
Lemma b64ToPCM_chunk_shape_witness :
  exists c, b64ToPCM "AAD/fw==" = inl c /\ sampleRate c = 24000
            /\ List.length (float32 c) = 2%nat.
Proof.
  eexists. split; [reflexivity |].
  destruct (b64ToPCM_chunk_shape "AAD/fw==" _ eq_refl) as (R & _ & _).
  split; [exact R | reflexivity].
Defined.

(** Encoding a sample of the nominal range and decoding the result
    gives the sample back within one quantisation step plus one float32
    rounding. *)
Theorem encode_decode_error (x : spec_float) :
  valid32 x -> has_value x = true -> (-1 <= SF2Q x)%Q -> (SF2Q x <= 1)%Q ->
  (Qabs (SF2Q (decode_sample (encode_sample x)) - SF2Q x)
   < (1 # 32767) + (1 # 16777216))%Q.
Proof.
  intros Hv Hx H1 H2.
  destruct (encode_sample_nominal x Hv Hx H1 H2) as [E R].
  pose proof (Qtruncate_near (SF2Q x * 32767)) as [N1 N2]. rewrite <- E in N1, N2.
  destruct (decode_sample_props (encode_sample x) ltac:(lia)) as (_ & _ & A & _).
  apply Qabs_Qle_condition in A.
  change (Qabs (inject_Z (encode_sample x))) with (inject_Z (Z.abs (encode_sample x))) in A.
  assert (B : (inject_Z (Z.abs (encode_sample x)) <= inject_Z 32767)%Q)
    by (rewrite <- Zle_Qle; lia).
  change (inject_Z 32767) with 32767%Q in B.
  apply Qabs_Qlt_condition. split; lra.
Qed.

(** The theorem above at the sample 0.5. *)
Lemma encode_decode_error_witness :
  (Qabs (SF2Q (decode_sample (encode_sample f32_half)) - SF2Q f32_half)
   < (1 # 32767) + (1 # 16777216))%Q.
Proof.
  apply (encode_decode_error f32_half); try reflexivity; vm_compute; discriminate.
Defined.

(* ------------------------------------------------------------------ *)
(** ** The controller over its lifetime *)
(* ------------------------------------------------------------------ *)

Section Invariants.

Lemma b64ToPCM_rate (audio : string) (c : PlaybackChunk) :
  b64ToPCM audio = inl c -> sampleRate c = 24000.
Proof.
  unfold b64ToPCM. destruct (Base64.atob audio); [| discriminate].
  destruct (Int16Array_of_buffer _); [| discriminate].
  intro H. injection H as <-. reflexivity.
Qed.

Ltac break_state st :=
  destruct st as [ba ctx wk sm rec em co gum sd]; unfold coherent;
  cbn [button_active audioCtx worklet stream isRecording emitted console
       getUserMedia_calls started].

Ltac close_inv :=
  cbn; repeat split; intros; try discriminate; auto; try lia;
  repeat match goal with
  | N : ?c = None -> _, H : ?c = None |- _ => destruct (N H) as (? & ? & ? & ?); clear N
  end; subst; auto; try congruence.

Lemma ensure_coherent env st :
  coherent st -> isRecording st = false ->
  coherent (fst (_ensureAudioPipeline env st)).
Proof.
  unfold _ensureAudioPipeline. break_state st.
  intros (B & S & C & N & W & G & L) R.
  destruct ctx as [r |]; [cbn; repeat split; auto; intros; discriminate |].
  destruct (N eq_refl) as (G0 & W0 & L0 & R0). subst.
  destruct (addModule_ok env); cbn; [destruct (getUserMedia env); cbn |];
    repeat split; auto; try discriminate; try lia; intros; try discriminate; auto.
Qed.

Lemma start_coherent env st : coherent st -> coherent (fst (start env st)).
Proof.
  unfold start, _ensureAudioPipeline. break_state st.
  intros (B & S & C & N & W & G & L).
  destruct rec; [close_inv |].
  destruct ctx as [r |]; [close_inv |].
  destruct (N eq_refl) as (G0 & W0 & L0 & R0). subst.
  destruct (addModule_ok env); cbn; [destruct (getUserMedia env); cbn |];
    repeat split; auto; try discriminate; try lia; intros; try discriminate; auto.
Qed.

Lemma stop_coherent st : coherent st -> coherent (stop st).
Proof.
  unfold stop. destruct (isRecording st) eqn:R; [| auto]. cbn [negb].
  revert R. break_state st. intros R (B & S & C & N & W & G & L).
  close_inv.
Qed.

Lemma step_coherent ev st : coherent st -> coherent (fst (step ev st)).
Proof.
  intro H. destruct ev as [env | | env | inputs | now audio | text]; cbn [step fst].
  - apply start_coherent, H.
  - apply stop_coherent, H.
  - unfold toggle. destruct (isRecording st);
      [apply stop_coherent | apply start_coherent]; exact H.
  - destruct (worklet st); [| exact H].
    destruct (snd (process inputs)); [| exact H].
    revert H. break_state st. intros (B & S & C & N & W & G & L). close_inv.
  - unfold on_assistant_audio. destruct (b64ToPCM audio) as [c | e] eqn:E; [| exact H].
    apply b64ToPCM_rate in E. unfold _playAssistant. rewrite E.
    revert H. break_state st. intros (B & S & C & N & W & G & L).
    destruct ctx as [r |]; destruct (float32 c); cbn;
      repeat split; auto; try discriminate; intros; try discriminate;
      destruct (N eq_refl) as (G0 & W0 & L0 & R0); subst; auto; try discriminate.
  - exact H.
Qed.

Lemma run_coherent evs : forall st, coherent st -> coherent (run evs st).
Proof.
  induction evs as [| ev evs IH]; intros st H; [exact H |].
  cbn [run]. apply IH, step_coherent, H.
Qed.

Lemma new_coherent : coherent new_VoiceController.
Proof. unfold coherent. cbn. repeat split; auto; discriminate. Qed.

End Invariants.

Section Resources.

Lemma trace_Forall (P : State -> Prop) :
  (forall ev st, P st -> P (fst (step ev st))) ->
  forall evs st, P st -> Forall P (trace evs st).
Proof.
  intros Hstep. induction evs as [| ev evs IH]; intros st H.
  - cbn. constructor; [exact H | constructor].
  - cbn [trace]. constructor; [exact H |]. apply IH, Hstep, H.
Qed.

(** Once a context exists without a capture graph, no step builds one. *)
Lemma step_capture_off ev st :
  capture_off st ->
  let st' := fst (step ev st) in
  capture_off st'
  /\ stream st' = stream st
  /\ getUserMedia_calls st' = getUserMedia_calls st
  /\ console st' = console st
  /\ filter is_chunk (emitted st') = filter is_chunk (emitted st).
Proof.
  intros [C W]. cbv zeta. unfold capture_off.
  destruct st as [ba ctx wk sm rec em co gum sd]. cbn in C, W. subst wk.
  destruct ctx as [r |]; [clear C | contradiction].
  destruct ev as [env | | env | inputs | now audio | text]; cbn [step].
  - unfold start. cbn. destruct rec; cbn; repeat split; discriminate.
  - unfold stop. cbn. destruct rec; cbn; repeat split; try discriminate.
    rewrite filter_app. cbn. now rewrite app_nil_r.
  - unfold toggle, start, stop. cbn. destruct rec; cbn; repeat split; try discriminate.
    rewrite filter_app. cbn. now rewrite app_nil_r.
  - cbn. repeat split; discriminate.
  - unfold on_assistant_audio. destruct (b64ToPCM audio) as [c | e];
      [| cbn; repeat split; discriminate].
    unfold _playAssistant. cbn. destruct (float32 c); cbn; repeat split; discriminate.
  - cbn. repeat split; discriminate.
Qed.

Lemma run_capture_off evs : forall st,
  capture_off st ->
  let st' := run evs st in
  capture_off st'
  /\ stream st' = stream st
  /\ getUserMedia_calls st' = getUserMedia_calls st
  /\ console st' = console st
  /\ filter is_chunk (emitted st') = filter is_chunk (emitted st).
Proof.
  induction evs as [| ev evs IH]; intros st H; cbv zeta.
  - cbn. repeat split; try reflexivity; apply H.
  - cbn [run]. destruct (step_capture_off ev st H) as (H1 & S1 & G1 & L1 & E1).
    destruct (IH _ H1) as (H2 & S2 & G2 & L2 & E2).
    repeat split; try apply H2; congruence.
Qed.

Lemma step_keeps ev st :
  let st' := fst (step ev st) in
  (forall r, audioCtx st = Some r -> audioCtx st' = Some r)
  /\ (stream st = true -> stream st' = true)
  /\ (worklet st = true -> worklet st' = true)
  /\ (getUserMedia_calls st <= getUserMedia_calls st')%nat.
Proof.
  cbv zeta. destruct st as [ba ctx wk sm rec em co gum sd].
  destruct ev as [env | | env | inputs | now audio | text]; cbn [step].
  - unfold start, _ensureAudioPipeline. cbn.
    destruct rec; [cbn; auto |].
    destruct ctx; [cbn; auto |].
    destruct (addModule_ok env); cbn; [destruct (getUserMedia env); cbn |];
      repeat split; auto; try discriminate.
  - unfold stop. cbn. destruct rec; cbn; auto.
  - unfold toggle, stop, start, _ensureAudioPipeline. cbn.
    destruct rec; [cbn; auto |].
    destruct ctx; [cbn; auto |].
    destruct (addModule_ok env); cbn; [destruct (getUserMedia env); cbn |];
      repeat split; auto; try discriminate.
  - cbn. destruct wk; [| cbn; auto]. destruct (snd (process inputs)); cbn; auto.
  - unfold on_assistant_audio. destruct (b64ToPCM audio) as [c | e]; [| cbn; auto].
    unfold _playAssistant. cbn.
    destruct ctx; destruct (float32 c); cbn; repeat split; auto; discriminate.
  - cbn. auto.
Qed.

Lemma process_posted (q : list (list (list spec_float))) :
  snd (process q) = if has_data q then Some (posted q) else None.
Proof.
  unfold posted. destruct q as [| [| f cs] rest]; reflexivity.
Qed.

Lemma run_quanta (qs : list (list (list (list spec_float)))) : forall st,
  worklet st = true ->
  run (map EQuantum qs) st
  = fold_left (fun s q => socket_emit (audio_chunk (posted q)) s) (filter has_data qs) st.
Proof.
  induction qs as [| q qs IH]; intros st W; [reflexivity |].
  cbn [map run filter]. rewrite quantum_sent by exact W. rewrite process_posted.
  destruct (has_data q); cbn [fold_left]; apply IH; exact W.
Qed.

Lemma Int16Array_of_buffer_odd (b : ArrayBuffer) :
  forall n, (List.length b <= n)%nat ->
  match Int16Array_of_buffer b with
  | None => Nat.odd (List.length b) = true
  | Some l => List.length b = (2 * List.length l)%nat
  end.
Proof.
  intros n. revert b. induction n as [| n IH]; intros b Hn.
  - destruct b; [reflexivity | cbn in Hn; lia].
  - destruct b as [| lo [| hi rest]]; [reflexivity | reflexivity |].
    cbn [Int16Array_of_buffer]. cbn [List.length] in Hn.
    specialize (IH rest ltac:(lia)).
    destruct (Int16Array_of_buffer rest) as [l |].
    + cbn [List.length]. lia.
    + cbn [List.length]. rewrite Nat.odd_succ, Nat.even_succ. exact IH.
Qed.

Lemma string_length_list (s : string) :
  List.length (list_ascii_of_string s) = String.length s.
Proof. induction s as [| ch s IH]; cbn; [reflexivity | now rewrite IH]. Qed.

End Resources.

(** In every state a controller passes through, the mic button carries
    class 'active' exactly when the session is Recording. *)
Theorem button_mirrors_recording (evs : list Event) :
  Forall (fun st => button_active st = isRecording st) (trace evs new_VoiceController).
Proof.
  apply trace_Forall; [apply step_button_follows | reflexivity].
Qed.

(** Whatever happens to a controller, the microphone is asked for at most
    once, the stream is held exactly when the worklet node exists, the
    context runs at 24 kHz, the capture graph exists only after one
    successful acquisition, and a Recording session has a context. *)
Theorem capture_graph_built_at_most_once (evs : list Event) :
  let st := run evs new_VoiceController in
  (getUserMedia_calls st <= 1)%nat
  /\ stream st = worklet st
  /\ (audioCtx st = None \/ audioCtx st = Some 24000)
  /\ (worklet st = true ->
      getUserMedia_calls st = 1%nat /\ audioCtx st = Some 24000 /\ console st = [])
  /\ (audioCtx st = None -> getUserMedia_calls st = 0%nat /\ worklet st = false)
  /\ (isRecording st = true -> audioCtx st = Some 24000).
Proof.
  cbv zeta.
  destruct (run_coherent evs _ new_coherent) as (B & S & C & N & W & G & L).
  repeat split; auto.
  - destruct C as [C | C]; [| exact C].
    destruct (N C) as (_ & W0 & _). congruence.
  - destruct L as [L | (_ & _ & L)]; [exact L | congruence].
  - apply N; assumption.
  - apply N; assumption.
  - intro R. destruct C as [C | C]; [| exact C].
    destruct (N C) as (_ & _ & _ & R0). congruence.
Qed.

(** The controller logs nothing but the one module-load error, and a
    controller that logged it never asks for the microphone. *)
Theorem console_only_module_error (evs : list Event) :
  let st := run evs new_VoiceController in
  console st = []
  \/ (console st = [console_error "Failed to load AudioWorklet:"]
      /\ getUserMedia_calls st = 0%nat /\ worklet st = false
      /\ audioCtx st = Some 24000).
Proof.
  cbv zeta.
  destruct (run_coherent evs _ new_coherent) as (B & S & C & N & W & G & L).
  destruct L as [L | (L & G0 & W0)]; [left; exact L | right].
  repeat split; auto.
  destruct C as [C | C]; [| exact C].
  destruct (N C) as (_ & _ & L0 & _). rewrite L in L0. discriminate.
Qed.

(** Nothing is ever released: the context, the microphone stream and
    the worklet node survive every event, stop() included. *)
Theorem resources_never_released (evs : list Event) (st : State) :
  (forall r, audioCtx st = Some r -> audioCtx (run evs st) = Some r)
  /\ (stream st = true -> stream (run evs st) = true)
  /\ (worklet st = true -> worklet (run evs st) = true)
  /\ (getUserMedia_calls st <= getUserMedia_calls (run evs st))%nat.
Proof.
  revert st. induction evs as [| ev evs IH]; intros st; [cbn; auto |].
  cbn [run]. destruct (step_keeps ev st) as (A1 & S1 & W1 & G1).
  destruct (IH (fst (step ev st))) as (A2 & S2 & W2 & G2).
  repeat split; auto. lia.
Qed.

(** The theorem above after a start() and two stop(): the stream is still held. *)
Lemma resources_never_released_witness :
  stream (run [EStop; EStop] (fst (start env_ok new_VoiceController))) = true.
Proof.
  apply (proj1 (proj2 (resources_never_released [EStop; EStop]
                         (fst (start env_ok new_VoiceController))))).
  reflexivity.
Defined.

(** The capture graph can only be built by the call that creates the
    context: once a context exists without a worklet node, no sequence of
    events builds the graph, asks for the microphone or sends a chunk. *)
Theorem capture_needs_fresh_context (evs : list Event) (st : State) :
  audioCtx st <> None -> worklet st = false ->
  let st' := run evs st in
  worklet st' = false
  /\ stream st' = stream st
  /\ getUserMedia_calls st' = getUserMedia_calls st
  /\ chunks st' = chunks st.
Proof.
  intros C W. cbv zeta.
  destruct (run_capture_off evs st (conj C W)) as ((_ & W') & S & G & _ & E).
  unfold chunks. rewrite E. auto.
Qed.

(** The theorem above after a start() whose module load failed: a later start() with a working browser sends no chunk. *)
Lemma capture_needs_fresh_context_witness :
  chunks (run [EStop; EStart env_ok; EQuantum silent_quantum]
              (fst (start env_module_fails new_VoiceController))) = 0%nat.
Proof.
  apply (capture_needs_fresh_context [EStop; EStart env_ok; EQuantum silent_quantum]
           (fst (start env_module_fails new_VoiceController))).
  - discriminate.
  - reflexivity.
Defined.

(** An assistant chunk played before the first start() creates the
    context, so the next start() resolves and enters Recording without the
    capture graph: the microphone is never asked for and no chunk is sent. *)
Theorem playback_first_disables_capture
    (now : Q) (audio : string) (c : PlaybackChunk) (env : Env) (evs : list Event)
    (st : State) :
  b64ToPCM audio = inl c ->
  audioCtx st = None -> worklet st = false -> isRecording st = false ->
  let st1 := fst (step (EAssistantAudio now audio) st) in
  let st2 := fst (start env st1) in
  snd (start env st1) = Returned
  /\ isRecording st2 = true
  /\ worklet (run evs st2) = false
  /\ getUserMedia_calls (run evs st2) = getUserMedia_calls st
  /\ chunks (run evs st2) = chunks st.
Proof.
  intros D C W R. cbv zeta.
  assert (H1 : capture_off (fst (step (EAssistantAudio now audio) st))
               /\ isRecording (fst (step (EAssistantAudio now audio) st)) = false
               /\ getUserMedia_calls (fst (step (EAssistantAudio now audio) st))
                  = getUserMedia_calls st
               /\ emitted (fst (step (EAssistantAudio now audio) st)) = emitted st).
  { cbn [step]. unfold on_assistant_audio. rewrite D. unfold _playAssistant, capture_off.
    rewrite C. destruct (float32 c); cbn; repeat split; auto; discriminate. }
  destruct H1 as (H1 & R1 & G1 & E1).
  set (st1 := fst (step (EAssistantAudio now audio) st)) in *.
  destruct (audioCtx st1) as [r |] eqn:C1; [| destruct H1 as [H1 _]; contradiction].
  rewrite (start_built env st1 r R1 C1). cbn [fst snd].
  assert (H2 : capture_off (set_isRecording true (set_button_active true st1))).
  { destruct H1 as [A B]. split; [exact A | exact B]. }
  destruct (run_capture_off evs _ H2) as ((_ & W') & _ & G & _ & E).
  repeat split; auto.
  - rewrite G. exact G1.
  - unfold chunks. rewrite E. cbn [emitted set_isRecording set_button_active].
    now rewrite E1.
Qed.

(** The theorem above at a new controller that plays two samples before its first start(). *)
Lemma playback_first_disables_capture_witness :
  chunks (run [EQuantum silent_quantum; EStop]
            (fst (start env_ok
               (fst (step (EAssistantAudio 0 "AAD/fw==") new_VoiceController))))) = 0%nat.
Proof.
  apply (playback_first_disables_capture 0 "AAD/fw==" _ env_ok
           [EQuantum silent_quantum; EStop] new_VoiceController eq_refl);
    reflexivity.
Defined.

(** After a start() that the device refused, the context is left
    behind: every later start() resolves and enters Recording without asking
    for the microphone again, and no chunk is ever sent. *)
Theorem refused_device_not_asked_again
    (env env' : Env) (e : Exception) (evs : list Event) (st : State) :
  isRecording st = false -> audioCtx st = None -> worklet st = false ->
  addModule_ok env = true -> getUserMedia env = Refused e ->
  let st1 := fst (start env st) in
  let st2 := fst (start env' st1) in
  snd (start env' st1) = Returned
  /\ isRecording st2 = true
  /\ worklet (run evs st2) = false
  /\ getUserMedia_calls (run evs st2) = S (getUserMedia_calls st)
  /\ chunks (run evs st2) = chunks st.
Proof.
  intros R C W M G. cbv zeta.
  rewrite (start_refused env st e R C M G). cbn [fst].
  set (st1 := count_getUserMedia (set_audioCtx (Some 24000) st)).
  rewrite (start_built env' st1 24000 R eq_refl). cbn [fst snd].
  assert (H2 : capture_off (set_isRecording true (set_button_active true st1))).
  { split; [discriminate | exact W]. }
  destruct (run_capture_off evs _ H2) as ((_ & W') & _ & G' & _ & E).
  repeat split; auto. unfold chunks. rewrite E. reflexivity.
Qed.

(** The theorem above at a new controller whose first start() is denied the microphone. *)
Lemma refused_device_not_asked_again_witness :
  getUserMedia_calls
    (run [EQuantum silent_quantum; EStop; EStart env_ok]
       (fst (start env_ok (fst (start env_denied new_VoiceController))))) = 1%nat.
Proof.
  apply (refused_device_not_asked_again env_denied env_ok NotAllowedError
           [EQuantum silent_quantum; EStop; EStart env_ok] new_VoiceController);
    reflexivity.
Defined.



(** Once the context exists, playing an assistant chunk commutes with
    every event that plays nothing: playback and capture do not interfere. *)
Theorem playback_commutes_with_capture
    (now : Q) (audio : string) (ev : Event) (st : State) :
  audioCtx st <> None -> plays ev = [] ->
  run [EAssistantAudio now audio; ev] st = run [ev; EAssistantAudio now audio] st.
Proof.
  intros C P. destruct st as [ba ctx wk sm rec em co gum sd].
  destruct ctx as [r |]; [clear C | contradiction].
  cbn [run step]. unfold on_assistant_audio.
  destruct ev as [env | | env | inputs | now' audio' | text].
  - destruct (b64ToPCM audio) as [c | e]; [| reflexivity].
    unfold _playAssistant, start, _ensureAudioPipeline. cbn.
    destruct (float32 c); destruct rec; reflexivity.
  - destruct (b64ToPCM audio) as [c | e]; [| reflexivity].
    unfold _playAssistant, stop. cbn. destruct (float32 c); destruct rec; reflexivity.
  - destruct (b64ToPCM audio) as [c | e]; [| reflexivity].
    unfold _playAssistant, toggle, stop, start, _ensureAudioPipeline. cbn.
    destruct (float32 c); destruct rec; reflexivity.
  - destruct (b64ToPCM audio) as [c | e]; [| reflexivity].
    unfold _playAssistant. cbn.
    destruct (float32 c); destruct wk; cbn; try reflexivity;
      destruct (snd (process inputs)); reflexivity.
  - cbn [plays] in P. cbn [step]. unfold on_assistant_audio.
    destruct (b64ToPCM audio') as [c' | e']; destruct (b64ToPCM audio) as [c | e];
      try reflexivity.
    destruct (float32 c') eqn:F'; [| discriminate].
    unfold _playAssistant. cbn. rewrite F'.
    destruct (float32 c); cbn; rewrite ?F'; reflexivity.
  - reflexivity.
Qed.

(** The theorem above at a Recording controller and stop(). *)
Lemma playback_commutes_with_capture_witness :
  run [EAssistantAudio 0 "AAD/fw=="; EStop] (fst (start env_ok new_VoiceController))
  = run [EStop; EAssistantAudio 0 "AAD/fw=="] (fst (start env_ok new_VoiceController)).
Proof.
  apply (playback_commutes_with_capture 0 "AAD/fw==" EStop
           (fst (start env_ok new_VoiceController))).
  - discriminate.
  - reflexivity.
Defined.

(** Once the capture graph is built, a run of quanta sends one chunk
    per quantum that carries data, in order, each the buffer posted for it;
    quanta without data send nothing, and the session state plays no part. *)
Theorem quanta_forwarded_in_order
    (qs : list (list (list (list spec_float)))) (st : State) :
  worklet st = true ->
  let st' := run (map EQuantum qs) st in
  emitted st' = emitted st ++ map (fun q => audio_chunk (posted q)) (filter has_data qs)
  /\ isRecording st' = isRecording st
  /\ chunks st' = (chunks st + List.length (filter has_data qs))%nat
  /\ commits st' = commits st.
Proof.
  intro W. cbv zeta. rewrite (run_quanta qs st W).
  destruct (fold_emit (filter has_data qs) st) as (E & R & _ & _).
  repeat split; [exact E | exact R | |].
  - unfold chunks. rewrite E, filter_app, filter_chunks_all, length_app, length_map.
    reflexivity.
  - unfold commits. rewrite E, filter_app, filter_commits_none, app_nil_r. reflexivity.
Qed.

(** The theorem above at four quanta, two of them without data, rendered after stop(). *)
Lemma quanta_forwarded_in_order_witness :
  chunks (run (map EQuantum [silent_quantum; []; [[]]; silent_quantum])
              (stop (fst (start env_ok new_VoiceController)))) = 2%nat.
Proof.
  apply (quanta_forwarded_in_order [silent_quantum; []; [[]]; silent_quantum]
           (stop (fst (start env_ok new_VoiceController))) eq_refl).
Defined.

(* ------------------------------------------------------------------ *)
(** ** Where chunks and sources come from *)
(* ------------------------------------------------------------------ *)

Section Provenance.

Lemma run_emitted_from evs : forall st m,
  In m (emitted (run evs st)) ->
  In m (emitted st) \/ exists ev st', In ev evs /\ In m (sends ev st').
Proof.
  induction evs as [| ev evs IH]; intros st m H; [left; exact H |].
  cbn [run] in H. apply IH in H. destruct H as [H | (ev' & st' & I & S)].
  - rewrite step_emitted in H. apply in_app_or in H. destruct H as [H | H];
      [left; exact H | right; exists ev, st; split; [left; reflexivity | exact H]].
  - right. exists ev', st'. split; [right; exact I | exact S].
Qed.

Lemma sends_chunk ev st b :
  In (audio_chunk b) (sends ev st) ->
  exists frame channels inputs,
    ev = EQuantum ((frame :: channels) :: inputs)
    /\ b = Int16Array_buffer (map encode_sample frame).
Proof.
  destruct ev as [env | | env | inputs | now audio | text]; cbn [sends];
    try (intros []).
  - destruct (isRecording st); [intros [H | []]; discriminate | intros []].
  - destruct (isRecording st); [intros [H | []]; discriminate | intros []].
  - destruct (worklet st); [| intros []].
    destruct inputs as [| [| frame channels] rest]; cbn [process snd In]; [intros [] | intros [] |].
    intros [H | []]. injection H as <-. exists frame, channels, rest. auto.
Qed.

Lemma int16_bytes_range (v : Z) : Forall (fun x => 0 <= x < 256) (int16_bytes v).
Proof.
  unfold int16_bytes.
  repeat constructor; apply Z.mod_pos_bound; lia.
Qed.

Lemma Int16Array_buffer_bytes (l : list Z) :
  Forall (fun x => 0 <= x < 256) (Int16Array_buffer l).
Proof.
  induction l as [| v l IH]; [constructor |].
  unfold Int16Array_buffer. cbn [flat_map]. apply Forall_app. split;
    [apply int16_bytes_range | exact IH].
Qed.

Lemma encoded_in_range (frame : list spec_float) :
  Forall (fun v => -32768 <= v <= 32767) (map encode_sample frame).
Proof. apply Forall_map, Forall_forall. intros x _. apply encode_sample_range. Qed.

End Provenance.

(** Every chunk a controller ever sends is the 16-bit little-endian
    encoding of channel 0 of input 0 of a quantum that was rendered: two
    bytes per frame, which an Int16Array view reads back as the encoded
    samples. *)
Theorem emitted_chunks_come_from_quanta (evs : list Event) (b : ArrayBuffer) :
  In (audio_chunk b) (emitted (run evs new_VoiceController)) ->
  exists frame channels inputs,
    In (EQuantum ((frame :: channels) :: inputs)) evs
    /\ b = Int16Array_buffer (map encode_sample frame)
    /\ Int16Array_of_buffer b = Some (map encode_sample frame)
    /\ List.length b = (2 * List.length frame)%nat
    /\ Forall (fun x => 0 <= x < 256) b.
Proof.
  intro H. apply run_emitted_from in H. destruct H as [[] | (ev & st' & I & S)].
  apply sends_chunk in S. destruct S as (frame & channels & inputs & -> & ->).
  exists frame, channels, inputs. split; [exact I |]. split; [reflexivity |].
  split; [apply Int16Array_view, encoded_in_range |].
  split; [rewrite Int16Array_byteLength, length_map; reflexivity |].
  apply Int16Array_buffer_bytes.
Qed.

(** The theorem above at the chunk of the frame 0.5, 1. *)
Lemma emitted_chunks_come_from_quanta_witness :
  exists frame channels inputs,
    In (EQuantum ((frame :: channels) :: inputs))
       [EStart env_ok; EQuantum [[[f32_half; f32_one]]]]
    /\ [255; 63; 255; 127] = Int16Array_buffer (map encode_sample frame).
Proof.
  destruct (emitted_chunks_come_from_quanta
              [EStart env_ok; EQuantum [[[f32_half; f32_one]]]] [255; 63; 255; 127])
    as (frame & channels & inputs & I & E & _).
  - vm_compute. left. reflexivity.
  - exists frame, channels, inputs. split; [exact I | exact E].
Defined.

(** How the assistant_audio handler ends is decided by the payload
    alone: not base64, an odd number of bytes, no bytes at all, or it
    returns.  When it throws nothing is started, and the controller is
    unchanged except that an empty payload may have created the context. *)
Theorem assistant_audio_outcome (now : Q) (audio : string) (st : State) :
  let r := step (EAssistantAudio now audio) st in
  snd r = match Base64.atob audio with
          | None => Threw InvalidCharacterError
          | Some str =>
              if Nat.odd (String.length str) then Threw RangeError
              else if (String.length str =? 0)%nat then Threw NotSupportedError
              else Returned
          end
  /\ (snd r <> Returned ->
      started (fst r) = started st
      /\ (fst r = st
          \/ Base64.atob audio = Some EmptyString /\ audioCtx st = None
             /\ fst r = set_audioCtx (Some 24000) st)).
Proof.
  cbv zeta. cbn [step]. unfold on_assistant_audio, b64ToPCM.
  destruct (Base64.atob audio) as [str |]; [| split; [reflexivity | auto]].
  pose proof (Int16Array_of_buffer_odd (Uint8Array_from str Base64.charCode) _ (le_n _)) as H.
  unfold Uint8Array_from in *. rewrite length_map, string_length_list in H.
  destruct (Int16Array_of_buffer (map Base64.charCode (list_ascii_of_string str)))
    as [l |] eqn:E.
  - assert (O : Nat.odd (String.length str) = false).
    { rewrite H, <- Nat.negb_even, Nat.even_mul. reflexivity. }
    rewrite O. unfold _playAssistant. cbn [float32 sampleRate].
    destruct l as [| v l].
    + cbn in H. rewrite H. cbn.
      split; [reflexivity |]. intros _.
      destruct str; [| cbn in H; discriminate H].
      destruct (audioCtx st) eqn:C; cbn; auto.
    + cbn [map]. cbn [List.length] in H.
      replace (String.length str =? 0)%nat with false
        by (symmetry; apply Nat.eqb_neq; lia).
      cbn [snd]. split; [reflexivity | intro N; contradiction].
  - rewrite H. cbn. auto.
Qed.

(** The theorem above at a payload of one byte. *)
Lemma assistant_audio_outcome_witness :
  started (fst (step (EAssistantAudio 0 "AA") new_VoiceController)) = [].
Proof.
  destruct (assistant_audio_outcome 0 "AA" new_VoiceController) as [O U].
  cbv zeta in O, U. apply U. rewrite O. vm_compute. discriminate.
Defined.

(** Every source a controller ever starts comes from one decodable,
    non-empty assistant_audio message, starts at the device time of that
    message, runs at 24 kHz for a positive time, and holds finite binary32
    samples between -32769/32768 and 1. *)
Theorem started_sources_well_formed (evs : list Event) (s : BufferSource) :
  In s (started (run evs new_VoiceController)) ->
  (exists now audio,
      In (EAssistantAudio now audio) evs /\ src_start s = now
      /\ b64ToPCM audio = inl {| float32 := src_buffer s; sampleRate := 24000 |})
  /\ src_rate s = 24000
  /\ src_buffer s <> []
  /\ (0 < duration s)%Q
  /\ Forall (fun x => valid32 x /\ has_value x = true
                      /\ (- (32769 # 32768) <= SF2Q x)%Q /\ (SF2Q x <= 1)%Q)
            (src_buffer s).
Proof.
  intro H. rewrite run_started in H. cbn [started new_VoiceController app] in H.
  apply in_flat_map in H. destruct H as (ev & I & P).
  destruct ev as [env | | env | inputs | now audio | text]; try (destruct P).
  cbn [plays] in P. destruct (b64ToPCM audio) as [c |] eqn:D; [| destruct P].
  destruct (b64ToPCM_inl audio c D) as (str & l & _ & _ & F & _ & E).
  apply decoded_samples in F. rewrite E in D, P. cbn [float32 sampleRate] in P.
  remember (map decode_sample l) as f eqn:Ef. clear Ef E c.
  destruct f as [| x f]; [destruct P |]. destruct P as [<- | []].
  cbn [src_start src_buffer src_rate].
  split; [exists now, audio; auto |].
  split; [reflexivity |]. split; [discriminate |]. split; [| exact F].
  unfold duration. cbn [src_buffer src_rate List.length].
  unfold Qlt, Qdiv, Qmult, Qinv, inject_Z. cbn [Qnum Qden]. lia.
Qed.

(** The theorem above at the source of the payload of the samples 0 and 32767. *)
Lemma started_sources_well_formed_witness :
  src_rate {| src_start := 0; src_buffer := [S754_zero false; f32_one];
              src_rate := 24000 |} = 24000.
Proof.
  apply (started_sources_well_formed [EAssistantAudio 0 "AAD/fw=="]).
  vm_compute. left. reflexivity.
Defined.


(* ------------------------------------------------------------------ *)
(** ** The controller without its button *)
(* ------------------------------------------------------------------ *)

Section NoButtonFacts.

Lemma no_button_step ev st :
  isRecording st = false ->
  let st' := fst (step_no_button ev st) in
  isRecording st' = false /\ button_active st' = button_active st
  /\ emitted st' = emitted st /\ started st' = started st.
Proof.
  intro R. cbv zeta.
  destruct ev as [env | | env | inputs | now audio | text]; cbn [step_no_button].
  - unfold start_no_button. rewrite R.
    pose proof (ensure_isRecording env st) as A.
    pose proof (ensure_button env st) as B.
    pose proof (ensure_emitted env st) as C.
    pose proof (ensure_started env st) as D.
    destruct (_ensureAudioPipeline env st) as [st' [| e]]; cbn [fst] in *;
      repeat split; congruence.
  - unfold stop_no_button. rewrite R. cbn. auto.
  - unfold toggle_no_button, start_no_button. rewrite R.
    pose proof (ensure_isRecording env st) as A.
    pose proof (ensure_button env st) as B.
    pose proof (ensure_emitted env st) as C.
    pose proof (ensure_started env st) as D.
    destruct (_ensureAudioPipeline env st) as [st' [| e]]; cbn [fst] in *;
      repeat split; congruence.
  - destruct (worklet st); [| cbn; auto].
    destruct (snd (process inputs)); cbn; auto.
  - cbn; auto.
  - cbn; auto.
Qed.

Lemma no_button_run evs : forall st,
  isRecording st = false ->
  let st' := run_no_button evs st in
  isRecording st' = false /\ button_active st' = button_active st
  /\ emitted st' = emitted st /\ started st' = started st.
Proof.
  induction evs as [| ev evs IH]; intros st R; cbv zeta; [cbn; auto |].
  cbn [run_no_button].
  destruct (no_button_step ev st R) as (R1 & B1 & E1 & S1).
  destruct (IH _ R1) as (R2 & B2 & E2 & S2).
  repeat split; congruence.
Qed.

End NoButtonFacts.

(** On a page without the mic button the controller warns that voice
    is disabled, yet start() still builds the pipeline: it asks for the
    microphone and holds the stream, then fails on the missing button.  No
    call ever makes such a controller Recording, and it never sends or plays
    anything. *)
Theorem voice_disabled_still_acquires_microphone (evs : list Event) (env : Env) :
  let st := run_no_button evs new_VoiceController_no_button in
  (isRecording st = false /\ emitted st = [] /\ started st = [])
  /\ snd (start_no_button env st) <> Completed
  /\ (addModule_ok env = true -> getUserMedia env = Granted ->
      let r := start_no_button env new_VoiceController_no_button in
      snd r = TypeError
      /\ stream (fst r) = true /\ getUserMedia_calls (fst r) = 1%nat
      /\ isRecording (fst r) = false).
Proof.
  cbv zeta.
  destruct (no_button_run evs new_VoiceController_no_button eq_refl) as (R & _ & E & S).
  split; [auto |]. split.
  - unfold start_no_button. rewrite R.
    destruct (_ensureAudioPipeline env _) as [st' [| e]]; discriminate.
  - intros M G. unfold start_no_button, _ensureAudioPipeline. cbn. rewrite M, G. cbn. auto.
Qed.

(** The theorem above at a browser that loads the module and grants the microphone. *)
Lemma voice_disabled_still_acquires_microphone_witness :
  stream (fst (start_no_button env_ok new_VoiceController_no_button)) = true.
Proof.
  destruct (voice_disabled_still_acquires_microphone [] env_ok) as (_ & _ & H).
  destruct (H eq_refl eq_refl) as (_ & S & _). exact S.
Defined.
